(** * SenSai voice session core: a shallow embedding and its properties

    The development follows the front-end sources of the repository:

    - [DeepgramVoice]: the [useDeepgramVoice] hook (session start, teardown
      and the Transcript handler that reconciles interim and final results);
    - [CommandRouter] and [VoiceInput]: [handleTranscriptUpdate], the
      spoken-command router, and the component that declares it;
    - [VapiWidget]: [parseForUIElements], [highlightElement] and
      [clearHighlight] of the voice-guide widget, with its timers, its
      renders and the effect that creates the Vapi instance;
    - [LiveTranscription]: the [useLiveTranscription] hook;
    - [Transcriber]: the [DeepgramTranscriber] component;
    - [TokenRoute]: the route that grants the Deepgram token.

    JavaScript strings are modelled as [string], every character being one
    code unit below 256 (the Latin-1 range, on which the model of [trim] and
    [toLowerCase] is exact).  Browser objects (recorders, connections,
    timers) live in an explicit environment; calls into them are recorded in
    a log, and whether a synchronous call throws is left to an oracle.  A
    React component is modelled between events: a handler runs, then the
    renders and effects it causes run to their end. *)

From Stdlib Require Import Ascii String.
From stdpp Require Import base strings list gmap.

(** ** JavaScript string primitives *)

Module Js.

(** WhiteSpace and LineTerminator code units below 256: TAB, LF, VT, FF, CR,
    SPACE and NO-BREAK SPACE. *)
Definition isWhiteSpace (c : ascii) : bool :=
  let n := nat_of_ascii c in
  ((9 <=? n) && (n <=? 13)) || (n =? 32) || (n =? 160).

Fixpoint trimStart (s : string) : string :=
  match s with
  | EmptyString => EmptyString
  | String c s' => if isWhiteSpace c then trimStart s' else s
  end.

Fixpoint trimEnd (s : string) : string :=
  match s with
  | EmptyString => EmptyString
  | String c s' =>
      match trimEnd s' with
      | EmptyString => if isWhiteSpace c then EmptyString else String c EmptyString
      | r => String c r
      end
  end.

(** [String.prototype.trim] *)
Definition trim (s : string) : string := trimEnd (trimStart s).

(** Lower-case mapping of one code unit: A-Z and the upper-case letters of
    Latin-1 (all of 192..222 but the multiplication sign 215) move up by 32. *)
Definition lowerChar (c : ascii) : ascii :=
  let n := nat_of_ascii c in
  if ((65 <=? n) && (n <=? 90)) || ((192 <=? n) && (n <=? 222) && negb (n =? 215))
  then ascii_of_nat (n + 32) else c.

(** [String.prototype.toLowerCase] *)
Fixpoint toLowerCase (s : string) : string :=
  match s with
  | EmptyString => EmptyString
  | String c s' => String (lowerChar c) (toLowerCase s')
  end.

(** [s.includes(needle)]: [needle] occurs at some position of [s]. *)
Fixpoint includes (s needle : string) : bool :=
  String.prefix needle s ||
  match s with
  | EmptyString => false
  | String _ s' => includes s' needle
  end.

(** [needle] is a substring of [s]. *)
Definition occurs_in (needle s : string) : Prop := ∃ a b, s = a +:+ needle +:+ b.

(** Truthiness of a string, and of a possibly [undefined] string. *)
Definition truthy (s : string) : bool :=
  match s with EmptyString => false | _ => true end.

Definition truthy_opt (o : option string) : bool :=
  match o with Some s => truthy s | None => false end.

(** A text made of white space only (the empty text included). *)
Fixpoint all_whitespace (s : string) : bool :=
  match s with
  | EmptyString => true
  | String c s' => isWhiteSpace c && all_whitespace s'
  end.

End Js.

(** ** The browser environment and the effects of a hook *)

Module Browser.

(** Calls a hook makes into its surroundings.  Sessions are numbered by the
    invocation of the start function that creates them: invocation [p]
    builds recorder [p], microphone stream [p] and connection [p]. *)
Inductive call :=
| fetch_token (p : nat)
| getUserMedia (p : nat)
| new_MediaRecorder (k : nat)
| listen_live (k : nat)
| recorder_start (k : nat) (timeslice : nat)
| recorder_stop (k : nat)
| track_stop (k : nat)
| conn_send (k : nat)
| conn_finish (k : nat)
| onError (msg : string)
| onTranscriptUpdate (text : string).

(** A [MediaRecorder] is [fresh] until started; [stopped] is the inactive
    state of a recorder that has recorded. *)
Inductive recorder_state := fresh | recording | stopped.

(** What a suspended start invocation waits for. *)
Inductive awaiting := await_token | await_microphone.

Inductive fetch_result :=
| token_json (token : option string)
| fetch_rejected (err : string).

Inductive microphone_result :=
| stream_granted
| microphone_rejected (err : string).

Record env := Env {
  recorders : gmap nat recorder_state;
  connections : gset nat;
  pending : gmap nat awaiting;
  invocations : nat;
  log : list call
}.

Definition env0 : env := Env ∅ ∅ ∅ 0 [].

(** Whether a synchronous call throws, and with what error, given the calls
    made so far. *)
Definition oracle := list call → call → option string.
Definition never_throws : oracle := λ _ _, None.

(** The oracle under which exactly the calls picked by [bad] throw. *)
Definition throws_on (bad : call → bool) : oracle :=
  λ _ c, if bad c then Some "Error" else None.

Definition is_conn_finish (c : call) : bool :=
  match c with conn_finish _ => true | _ => false end.

Definition is_recorder_stop (c : call) : bool :=
  match c with recorder_stop _ => true | _ => false end.

Inductive outcome (A : Type) := returned (a : A) | thrown (err : string).
Arguments returned {A} a.
Arguments thrown {A} err.

Record world (H : Type) := World { hk : H; envr : env }.
Arguments World {H} hk envr.
Arguments hk {H} w.
Arguments envr {H} w.

(** Computations over the hook state [H]: state passing, with exceptions
    that keep the effects made before the throw. *)
Definition M (H A : Type) : Type := world H → outcome A * world H.

Definition ret {H A} (a : A) : M H A := λ w, (returned a, w).

Definition bind {H A B} (m : M H A) (f : A → M H B) : M H B :=
  λ w, match m w with
       | (returned a, w') => f a w'
       | (thrown err, w') => (thrown err, w')
       end.

Definition throw {H A} (err : string) : M H A := λ w, (thrown err, w).

(** [try { m } catch {}] *)
Definition tryCatch {H} (m : M H unit) : M H unit :=
  λ w, (returned (), (m w).2).

(** [try { m } catch (e) { handler }] *)
Definition tryCatchWith {H} (m : M H unit) (handler : string → M H unit) : M H unit :=
  λ w, match m w with
       | (returned a, w') => (returned a, w')
       | (thrown err, w') => handler err w'
       end.

Definition gets {H A} (f : H → A) : M H A := λ w, (returned (f (hk w)), w).
Definition modify {H} (f : H → H) : M H unit :=
  λ w, (returned (), World (f (hk w)) (envr w)).
Definition gets_env {H A} (f : env → A) : M H A := λ w, (returned (f (envr w)), w).
Definition modify_env {H} (f : env → env) : M H unit :=
  λ w, (returned (), World (hk w) (f (envr w))).

Definition push_log (c : call) (e : env) : env :=
  Env (recorders e) (connections e) (pending e) (invocations e) (log e ++ [c]).
Definition set_recorder (k : nat) (s : recorder_state) (e : env) : env :=
  Env (<[k := s]> (recorders e)) (connections e) (pending e) (invocations e) (log e).
Definition add_connection (k : nat) (e : env) : env :=
  Env (recorders e) ({[k]} ∪ connections e) (pending e) (invocations e) (log e).
Definition set_pending (p : nat) (a : option awaiting) (e : env) : env :=
  Env (recorders e) (connections e)
      (match a with Some x => <[p := x]> (pending e) | None => delete p (pending e) end)
      (invocations e) (log e).
Definition next_invocation (e : env) : env :=
  Env (recorders e) (connections e) (pending e) (S (invocations e)) (log e).

(** A callback of the consumer or an asynchronous request: recorded only. *)
Definition note {H} (c : call) : M H unit := modify_env (push_log c).

(** A synchronous call into the browser or the SDK: recorded, then it
    throws if the oracle says so. *)
Definition ext {H} (throws : oracle) (c : call) : M H unit :=
  λ w, let w' := World (hk w) (push_log c (envr w)) in
       match throws (log (envr w)) c with
       | Some err => (thrown err, w')
       | None => (returned (), w')
       end.

#[global] Instance M_ret {H} : MRet (M H) := λ A, ret.
#[global] Instance M_bind {H} : MBind (M H) := λ A B f m, bind m f.

(** A connection delivers events only once created, which is also when the
    listeners of its recorder are attached; a recorder delivers data only
    once it has been started, and its stop event only once stopped. *)
Definition listening (k : nat) (e : env) : bool := bool_decide (k ∈ connections e).

Definition has_data (k : nat) (e : env) : bool :=
  listening k e &&
  match recorders e !! k with Some recording | Some stopped => true | _ => false end.

Definition has_stopped (k : nat) (e : env) : bool :=
  listening k e &&
  match recorders e !! k with Some stopped => true | _ => false end.

Definition awaits (p : nat) (a : awaiting) (e : env) : bool :=
  match pending e !! p, a with
  | Some await_token, await_token | Some await_microphone, await_microphone => true
  | _, _ => false
  end.

Definition when {H} (c : env → bool) (m : M H unit) : M H unit :=
  λ w, if c (envr w) then m w else (returned (), w).

(** Session [k] has captured nothing: its recorder, if there is one, has
    not been started, no start of it and no chunk for its connection is on
    the log. *)
Definition silent (k : nat) (e : env) : Prop :=
  (recorders e !! k = None ∨ recorders e !! k = Some fresh) ∧
  (∀ t, recorder_start k t ∉ log e) ∧
  conn_send k ∉ log e.

(** A computation keeps a property of the environment, however it ends. *)
Definition preserves {H A} (P : env → Prop) (m : M H A) : Prop :=
  ∀ w, P (envr w) → P (envr (m w).2).

Section Recorder.
Context {H : Type} (throws : oracle).

(** [recorder.start(timeslice)]: InvalidStateError when already recording. *)
Definition MediaRecorder_start (k timeslice : nat) : M H unit :=
  ext throws (recorder_start k timeslice);;
  st ← gets_env (λ e, recorders e !! k);
  match st with
  | Some recording => throw "InvalidStateError"
  | Some _ => modify_env (set_recorder k recording)
  | None => mret ()
  end.

(** [recorder.stop()]: a recording recorder becomes inactive (and its stop
    event is queued); on an inactive one the oracle decides between the
    InvalidStateError of older browsers and doing nothing. *)
Definition MediaRecorder_stop (k : nat) : M H unit :=
  ext throws (recorder_stop k);;
  st ← gets_env (λ e, recorders e !! k);
  match st with
  | Some recording => modify_env (set_recorder k stopped)
  | _ => mret ()
  end.

End Recorder.

End Browser.

(** ** The [useDeepgramVoice] hook *)

Module DeepgramVoice.
Import Browser.

Record Alternative := { transcript : string }.
Record Channel := { alternatives : list Alternative }.
Record DeepgramTranscriptData := { channel : Channel; is_final : bool }.

(** The refs and React state of the hook. *)
Record hook := Hook {
  dgConnRef : option nat;
  recorderRef : option nat;
  bufferRef : string;
  isVoiceActive : bool;
  liveTranscript : string
}.

Definition hook0 : hook := Hook None None "" false "".
Definition world0 : world hook := World hook0 env0.

Definition set_dgConnRef (v : option nat) (h : hook) : hook :=
  Hook v (recorderRef h) (bufferRef h) (isVoiceActive h) (liveTranscript h).
Definition set_recorderRef (v : option nat) (h : hook) : hook :=
  Hook (dgConnRef h) v (bufferRef h) (isVoiceActive h) (liveTranscript h).
Definition set_bufferRef (v : string) (h : hook) : hook :=
  Hook (dgConnRef h) (recorderRef h) v (isVoiceActive h) (liveTranscript h).
Definition setIsVoiceActive (v : bool) : M hook unit :=
  modify (λ h, Hook (dgConnRef h) (recorderRef h) (bufferRef h) v (liveTranscript h)).
Definition setLiveTranscript (v : string) : M hook unit :=
  modify (λ h, Hook (dgConnRef h) (recorderRef h) (bufferRef h) (isVoiceActive h) v).

(** The recognition events of the spec, as the payloads that carry them. *)
Definition PartialText (t : string) : DeepgramTranscriptData :=
  {| channel := {| alternatives := [ {| transcript := t |} ] |}; is_final := false |}.
Definition FinalText (t : string) : DeepgramTranscriptData :=
  {| channel := {| alternatives := [ {| transcript := t |} ] |}; is_final := true |}.

(** [data.channel.alternatives[0]?.transcript.trim()]: [None], for
    [undefined], when there is no first alternative. *)
Definition txt_of (data : DeepgramTranscriptData) : option string :=
  (λ a, Js.trim (transcript a)) <$> (alternatives (channel data) !! 0).

(** The handler of [LiveTranscriptionEvents.Transcript]. *)
Definition onTranscript (data : DeepgramTranscriptData) : M hook unit :=
  let txt := txt_of data in
  if Js.truthy_opt txt && is_final data then
    b ← gets bufferRef;
    modify (set_bufferRef (b +:+ (if Js.truthy b then " " else "") +:+ default "" txt));;
    b' ← gets bufferRef;
    setLiveTranscript b';;
    note (onTranscriptUpdate b')
  else if Js.truthy_opt txt then
    b ← gets bufferRef;
    setLiveTranscript (b +:+ " " +:+ default "" txt)
  else mret ().

Section Hook.
Context (throws : oracle).

Definition cleanupVoice : M hook unit :=
  tryCatch (r ← gets recorderRef;
            match r with Some k => MediaRecorder_stop throws k | None => mret () end);;
  tryCatch (c ← gets dgConnRef;
            match c with Some k => ext throws (conn_finish k) | None => mret () end);;
  modify (set_recorderRef None);;
  modify (set_dgConnRef None);;
  setIsVoiceActive false;;
  setLiveTranscript "";;
  modify (set_bufferRef "").

(** [startVoice] up to its first [await]. *)
Definition startVoice : M hook unit :=
  cleanupVoice;;
  setIsVoiceActive true;;
  setLiveTranscript "";;
  modify (set_bufferRef "");;
  p ← gets_env invocations;
  modify_env next_invocation;;
  note (fetch_token p);;
  modify_env (set_pending p (Some await_token)).

Definition stopVoice : M hook unit := cleanupVoice.

(** [startVoice] from the settled token fetch to the microphone request.
    The token counts when [tokenJson.token] is truthy: a nonempty string. *)
Definition startVoice_token (p : nat) (r : fetch_result) : M hook unit :=
  modify_env (set_pending p None);;
  match r with
  | token_json (Some (String c t)) =>
      note (getUserMedia p);;
      modify_env (set_pending p (Some await_microphone))
  | token_json _ =>
      note (onError ("Could not fetch Deepgram token: " +:+ "Error: No Deepgram token"));;
      setIsVoiceActive false
  | fetch_rejected err =>
      note (onError ("Could not fetch Deepgram token: " +:+ err));;
      setIsVoiceActive false
  end.

(** [startVoice] from the settled microphone request to its end. *)
Definition startVoice_microphone (p : nat) (r : microphone_result) : M hook unit :=
  modify_env (set_pending p None);;
  match r with
  | microphone_rejected err =>
      note (onError ("Could not access microphone: " +:+ err));;
      setIsVoiceActive false
  | stream_granted =>
      ext throws (new_MediaRecorder p);;
      modify_env (set_recorder p fresh);;
      modify (set_recorderRef (Some p));;
      ext throws (listen_live p);;
      modify_env (add_connection p);;
      modify (set_dgConnRef (Some p))
  end.

(** The handlers registered by session [k]. *)
Definition onOpen (k : nat) : M hook unit := MediaRecorder_start throws k 250.

Definition onDataAvailable (k : nat) : M hook unit := ext throws (conn_send k).

Definition onStop (k : nat) : M hook unit :=
  setIsVoiceActive false;;
  note (track_stop k);;
  tryCatch (ext throws (conn_finish k)).

(** What reaches the hook: the two user actions, the settling of the
    awaited promises, and the events of connection [k] and recorder [k]. *)
Inductive event :=
| click_start
| click_stop
| token_settled (p : nat) (r : fetch_result)
| microphone_settled (p : nat) (r : microphone_result)
| Open (k : nat)
| Transcript (k : nat) (data : DeepgramTranscriptData)
| dataavailable (k : nat)
| recorder_stopped (k : nat).

(** Dispatch: a promise settles only while its continuation is pending. *)
Definition handle (ev : event) : M hook unit :=
  match ev with
  | click_start => startVoice
  | click_stop => stopVoice
  | token_settled p r => when (awaits p await_token) (startVoice_token p r)
  | microphone_settled p r => when (awaits p await_microphone) (startVoice_microphone p r)
  | Open k => when (listening k) (onOpen k)
  | Transcript k data => when (listening k) (onTranscript data)
  | dataavailable k => when (has_data k) (onDataAvailable k)
  | recorder_stopped k => when (has_stopped k) (onStop k)
  end.

(** One turn of the event loop; an exception that escapes a handler is
    reported by the runtime and the effects made so far stay. *)
Definition step (w : world hook) (ev : event) : world hook := (handle ev w).2.

Definition run (evs : list event) (w : world hook) : world hook := foldl step w evs.

End Hook.

(** Delivery of a sequence of Transcript payloads within one session. *)
Definition deliver (ds : list DeepgramTranscriptData) (w : world hook) : world hook :=
  foldl (λ (w : world hook) d, (onTranscript d w).2) w ds.

(** The release calls a teardown owes to the refs it finds. *)
Definition stops (h : hook) : list call :=
  match recorderRef h with Some k => [recorder_stop k] | None => [] end.

Definition finishes (h : hook) : list call :=
  match dgConnRef h with Some k => [conn_finish k] | None => [] end.

(** Two runs in which the user stops while [startVoice] is suspended: on
    the token fetch, and on the microphone request.  Both promises then
    settle well, the connection opens and the recorder delivers a chunk. *)
Definition stop_during_fetch : list event :=
  [ click_start; click_stop;
    token_settled 0 (token_json (Some "tok"));
    microphone_settled 0 stream_granted;
    Open 0; dataavailable 0 ].

Definition stop_during_microphone : list event :=
  [ click_start;
    token_settled 0 (token_json (Some "tok"));
    click_stop;
    microphone_settled 0 stream_granted;
    Open 0; dataavailable 0 ].

End DeepgramVoice.

(** ** The command router of the voice input component *)

Module CommandRouter.

Inductive effect := router_push (path : string) | console_log (msg : string).

Inductive action :=
| handleCreateCourseButtonClick
| handleJoinCourseAction
| handleSubmitTaskAction
| handleFallbackAction.

(** The bodies of the four actions. *)
Definition perform (a : action) : list effect :=
  match a with
  | handleCreateCourseButtonClick => [router_push "/school/admin/create"]
  | handleJoinCourseAction => [router_push "/courses/join"]
  | handleSubmitTaskAction => [console_log "User is attempting to submit a task."]
  | handleFallbackAction =>
      [console_log "Sorry, I didn't understand that. Could you please repeat?"]
  end.

(** [handleTranscriptUpdate], as the sequence of actions it invokes. *)
Definition handleTranscriptUpdate (transcript : string) : list action :=
  let normalizedTranscript := Js.toLowerCase transcript in
  if Js.includes normalizedTranscript "create course" then [handleCreateCourseButtonClick]
  else if Js.includes normalizedTranscript "join course" then [handleJoinCourseAction]
  else if Js.includes normalizedTranscript "submit task" then [handleSubmitTaskAction]
  else [handleFallbackAction].

End CommandRouter.

(** ** The voice input component *)

Module VoiceInput.
Import Browser DeepgramVoice.







End VoiceInput.

(** ** The voice-guide widget and its highlights *)

Module VapiWidget.

(** [UI_ELEMENT_MAP], in the order of its declaration, which is the order
    [Object.entries] enumerates it in. *)
Definition UI_ELEMENT_MAP : list (string * string) :=
  [ ("create account", "#create-account-btn");
    ("sign up", "#signup-button");
    ("signup", "#signup-button");
    ("email", "#email-input");
    ("email field", "#email-input");
    ("password", "#password-input");
    ("password field", "#password-input");
    ("confirm password", "#confirm-password-input");
    ("mark complete", "#mark-complete-btn");
    ("next task", "#next-task-btn");
    ("next", "#next-task-btn");
    ("previous task", "#prev-task-btn");
    ("previous", "#prev-task-btn");
    ("the quiz", "#quiz-container");
    ("quiz", "#quiz-container");
    ("create course", "#create-course-btn");
    ("join course", "#join-course-btn");
    ("course name", "#course-name-input");
    ("course code", "#course-code-input");
    ("enroll", "#enroll-btn");
    ("enrollment", "#enroll-btn");
    ("your courses", "#course-grid");
    ("list of courses", "#course-grid");
    ("course list", "#course-grid");
    ("courses", "#course-grid");
    ("submit", "#submit-btn");
    ("submit task", "#submit-task-btn");
    ("upload", "#upload-btn");
    ("storage queue", ".storage-queue-icon");
    ("storage-queue", ".storage-queue-icon");
    ("offline submit", "#offline-submit-btn");
    ("file upload", "#file-upload-input");
    ("dashboard", "#dashboard-link");
    ("profile", "#profile-link");
    ("settings", "#settings-link") ].

Definition INTERACTION_KEYWORDS : list string :=
  [ "click"; "tap"; "press"; "select"; "choose"; "find"; "look for";
    "go to"; "navigate"; "open"; "access"; "enter"; "fill"; "type" ].

Record UIElement := { elementName : string; selector : string }.

(** The loop over the entries of the map, with its early return. *)
Fixpoint scan (lowercaseText : string) (entries : list (string * string)) : option UIElement :=
  match entries with
  | [] => None
  | (name, sel) :: rest =>
      if Js.includes lowercaseText (Js.toLowerCase name)
      then Some {| elementName := name; selector := sel |}
      else scan lowercaseText rest
  end.

Definition parseForUIElements (text : string) : option UIElement :=
  let lowercaseText := Js.toLowerCase text in
  let hasInteractionKeyword :=
    existsb (λ keyword, Js.includes lowercaseText keyword) INTERACTION_KEYWORDS in
  if negb hasInteractionKeyword then None
  else scan lowercaseText UI_ELEMENT_MAP.

(** The page: elements in document order, each with an id and a class list.
    An element is referred to by its position. *)
Record Element := { el_id : string; classList : list string }.

(** Selectors of the two shapes the map holds: [#id] and [.class]. *)
Definition matches (sel : string) (el : Element) : bool :=
  match sel with
  | String "#" name => bool_decide (el_id el = name)
  | String "." name => bool_decide (name ∈ classList el)
  | _ => false
  end.

Fixpoint querySelector_from (i : nat) (sel : string) (doc : list Element) : option nat :=
  match doc with
  | [] => None
  | el :: rest => if matches sel el then Some i else querySelector_from (S i) sel rest
  end.

Definition querySelector (sel : string) (doc : list Element) : option nat :=
  querySelector_from 0 sel doc.

Fixpoint querySelectorAll_from (i : nat) (sel : string) (doc : list Element) : list nat :=
  match doc with
  | [] => []
  | el :: rest =>
      (if matches sel el then [i] else []) ++ querySelectorAll_from (S i) sel rest
  end.

Definition querySelectorAll (sel : string) (doc : list Element) : list nat :=
  querySelectorAll_from 0 sel doc.

Definition classList_add (c : string) (el : Element) : Element :=
  if bool_decide (c ∈ classList el) then el
  else {| el_id := el_id el; classList := classList el ++ [c] |}.

Definition classList_remove (c : string) (el : Element) : Element :=
  {| el_id := el_id el; classList := filter (λ x, x ≠ c) (classList el) |}.

(** What a timer runs: the delayed call of [highlightElement], or the
    removal of the highlight from the element the timer closed over. *)
Inductive callback :=
| highlight_later (selector elementName : string)
| unhighlight (element : nat).

Record timer := { deadline : N; todo : callback }.

(** Calls into the Vapi SDK; instances are numbered in the order of their
    creation. *)
Inductive vapi_call :=
| vapi_new (i : nat)
| vapi_start (i : nat)
| vapi_stop (i : nat).

(** The widget while it is mounted: its React state ([currentHighlight],
    [isConnected], [isSpeaking], [transcript], [vapi]), the page, the
    pending timers and the clock, and the runs of the effect that makes the
    Vapi instance.  [clearHighlight] is memoised on [currentHighlight] and
    is a dependency of that effect, so the effect runs again whenever a
    render sees another [currentHighlight]; [effects] records, for each run
    in order, the [currentHighlight] that its [clearHighlight] closed over.
    Run [i] made instance [i]. *)
Record widget := Widget {
  page : list Element;
  currentHighlight : option string;
  isConnected : bool;
  isSpeaking : bool;
  transcript : list (string * string);
  vapi : option nat;
  effects : list (option string);
  timers : list timer;
  now : N;
  console : list string;
  vapi_calls : list vapi_call
}.

Definition set_page (v : list Element) (w : widget) : widget :=
  Widget v (currentHighlight w) (isConnected w) (isSpeaking w) (transcript w)
         (vapi w) (effects w) (timers w) (now w) (console w) (vapi_calls w).
Definition setCurrentHighlight (v : option string) (w : widget) : widget :=
  Widget (page w) v (isConnected w) (isSpeaking w) (transcript w)
         (vapi w) (effects w) (timers w) (now w) (console w) (vapi_calls w).
Definition setIsConnected (v : bool) (w : widget) : widget :=
  Widget (page w) (currentHighlight w) v (isSpeaking w) (transcript w)
         (vapi w) (effects w) (timers w) (now w) (console w) (vapi_calls w).
Definition setIsSpeaking (v : bool) (w : widget) : widget :=
  Widget (page w) (currentHighlight w) (isConnected w) v (transcript w)
         (vapi w) (effects w) (timers w) (now w) (console w) (vapi_calls w).
Definition setTranscript (v : list (string * string)) (w : widget) : widget :=
  Widget (page w) (currentHighlight w) (isConnected w) (isSpeaking w) v
         (vapi w) (effects w) (timers w) (now w) (console w) (vapi_calls w).
Definition setVapi (v : option nat) (w : widget) : widget :=
  Widget (page w) (currentHighlight w) (isConnected w) (isSpeaking w) (transcript w)
         v (effects w) (timers w) (now w) (console w) (vapi_calls w).
Definition set_effects (v : list (option string)) (w : widget) : widget :=
  Widget (page w) (currentHighlight w) (isConnected w) (isSpeaking w) (transcript w)
         (vapi w) v (timers w) (now w) (console w) (vapi_calls w).
Definition set_timers (v : list timer) (w : widget) : widget :=
  Widget (page w) (currentHighlight w) (isConnected w) (isSpeaking w) (transcript w)
         (vapi w) (effects w) v (now w) (console w) (vapi_calls w).
Definition set_now (v : N) (w : widget) : widget :=
  Widget (page w) (currentHighlight w) (isConnected w) (isSpeaking w) (transcript w)
         (vapi w) (effects w) (timers w) v (console w) (vapi_calls w).
Definition console_log (msg : string) (w : widget) : widget :=
  Widget (page w) (currentHighlight w) (isConnected w) (isSpeaking w) (transcript w)
         (vapi w) (effects w) (timers w) (now w) (console w ++ [msg]) (vapi_calls w).
Definition vapi_do (c : vapi_call) (w : widget) : widget :=
  Widget (page w) (currentHighlight w) (isConnected w) (isSpeaking w) (transcript w)
         (vapi w) (effects w) (timers w) (now w) (console w) (vapi_calls w ++ [c]).

Definition setTimeout (cb : callback) (delay : N) (w : widget) : widget :=
  set_timers (timers w ++ [ {| deadline := (now w + delay)%N; todo := cb |} ]) w.

Definition highlight_class : string := "vapi-highlight".

(** [highlightElement]; it has no dependencies, so every render shares it.
    Its [try] guards against a selector the browser rejects; the selectors
    of the map are all well formed. *)
Definition highlightElement (sel name : string) (w : widget) : widget :=
  match querySelector sel (page w) with
  | Some element =>
      let cleared :=
        foldl (λ doc el, alter (classList_remove highlight_class) el doc)
              (page w) (querySelectorAll ("." +:+ highlight_class) (page w)) in
      let w := set_page (alter (classList_add highlight_class) element cleared) w in
      let w := setCurrentHighlight (Some sel) w in
      let w := setTimeout (unhighlight element) 5000%N w in
      console_log ("Highlighted element: " +:+ name +:+ " (" +:+ sel +:+ ")") w
  | None => console_log ("Element not found: " +:+ sel) w
  end.

(** [clearHighlight] as made by a render that saw [seen] as
    [currentHighlight]: the closure goes by that value, not by the state at
    the time of the call. *)
Definition clearHighlight (seen : option string) (w : widget) : widget :=
  match seen with
  | Some sel =>
      if Js.truthy sel then
        let w := match querySelector sel (page w) with
                 | Some element =>
                     set_page (alter (classList_remove highlight_class) element (page w)) w
                 | None => w
                 end in
        setCurrentHighlight None w
      else w
  | None => w
  end.

(** What the effect returns, for its latest run: the [clearHighlight] of
    the render that ran it, then [stop] on the instance it made. *)
Definition effect_cleanup (w : widget) : widget :=
  match last (effects w) with
  | Some seen => vapi_do (vapi_stop (length (effects w) - 1)) (clearHighlight seen w)
  | None => w
  end.

(** A run of the effect in a render that sees [cur]: a new instance, kept
    in [vapi], whose handlers are made of the closures of this render. *)
Definition effect_run (cur : option string) (w : widget) : widget :=
  let i := length (effects w) in
  setVapi (Some i) (vapi_do (vapi_new i) (set_effects (effects w ++ [cur]) w)).

(** One render and its effects: nothing to do when [currentHighlight] is
    what the latest run of the effect saw; otherwise the clean-up of that
    run, then a new run.  A state the clean-up sets is seen by the next
    render only. *)
Definition commit (w : widget) : widget :=
  let cur := currentHighlight w in
  match last (effects w) with
  | Some seen =>
      if bool_decide (seen = cur) then w else effect_run cur (effect_cleanup w)
  | None => effect_run cur w
  end.

(** React renders until nothing changes; the clean-up can reset
    [currentHighlight] once, so two rounds are enough ([commit_settle]). *)
Definition settle (w : widget) : widget := commit (commit w).

Definition run_callback (cb : callback) (w : widget) : widget :=
  match cb with
  | highlight_later sel name => highlightElement sel name w
  | unhighlight element =>
      setCurrentHighlight None
        (set_page (alter (classList_remove highlight_class) element (page w)) w)
  end.

(** The pending timer that is due first: smallest deadline, and among equal
    deadlines the one set first. *)
Fixpoint earliest (ts : list timer) : option N :=
  match ts with
  | [] => None
  | t :: rest =>
      match earliest rest with
      | Some d => Some (N.min (deadline t) d)
      | None => Some (deadline t)
      end
  end.

Fixpoint take_due (d : N) (ts : list timer) : option (timer * list timer) :=
  match ts with
  | [] => None
  | t :: rest =>
      if (deadline t =? d)%N then Some (t, rest)
      else match take_due d rest with
           | Some (u, rest') => Some (u, t :: rest')
           | None => None
           end
  end.

(** What happens to the widget.  The handlers of an instance are those of
    the effect run that made it; they differ between runs only in the
    [clearHighlight] that the [call-end] handler calls, so only [call_end]
    says which instance emits it.  The two buttons are rendered by
    [isConnected]: Start when it is false, End Call when it is true. *)
Inductive event :=
| call_start
| call_end (i : nat)
| speech_start
| speech_end
| message (mtype role text : string)
| vapi_error (error : string)
| click_startCall
| click_endCall
| elapse (ms : N)
| timer_fires.

Definition onMessage (mtype role text : string) (w : widget) : widget :=
  if bool_decide (mtype = "transcript") then
    let w := setTranscript (transcript w ++ [(role, text)]) w in
    if bool_decide (role = "assistant") then
      match parseForUIElements text with
      | Some uiElement =>
          setTimeout (highlight_later (selector uiElement) (elementName uiElement)) 500%N w
      | None => w
      end
    else w
  else w.

(** The [call-end] handler registered by the effect run that saw [seen]. *)
Definition onCallEnd (seen : option string) (w : widget) : widget :=
  clearHighlight seen (setIsSpeaking false (setIsConnected false (console_log "Call ended" w))).

Definition startCall (w : widget) : widget :=
  match vapi w with
  | Some i => vapi_do (vapi_start i) w
  | None => w
  end.

(** [endCall] is made anew by every render, with the [clearHighlight] and
    the [vapi] of that render. *)
Definition endCall (w : widget) : widget :=
  match vapi w with
  | Some i => vapi_do (vapi_stop i) (clearHighlight (currentHighlight w) w)
  | None => w
  end.

(** The handler of an event.  Time passes up to the next deadline at most:
    a timer that is due runs before the clock moves on, so timers run at
    their deadlines and in their order. *)
Definition handle (ev : event) (w : widget) : widget :=
  match ev with
  | call_start => setIsConnected true (console_log "Call started" w)
  | call_end i =>
      match effects w !! i with
      | Some seen => onCallEnd seen w
      | None => w
      end
  | speech_start => setIsSpeaking true (console_log "Assistant started speaking" w)
  | speech_end => setIsSpeaking false (console_log "Assistant stopped speaking" w)
  | message mtype role text => onMessage mtype role text w
  | vapi_error error => console_log ("Vapi error: " +:+ error) w
  | click_startCall => if isConnected w then w else startCall w
  | click_endCall => if isConnected w then endCall w else w
  | elapse ms =>
      match earliest (timers w) with
      | Some d => set_now (N.min (now w + ms) (N.max (now w) d)) w
      | None => set_now (now w + ms)%N w
      end
  | timer_fires =>
      match earliest (timers w) with
      | Some d =>
          if (d <=? now w)%N then
            match take_due d (timers w) with
            | Some (t, rest) => run_callback (todo t) (set_timers rest w)
            | None => w
            end
          else w
      | None => w
      end
  end.

(** A handler runs, then React renders and runs the effects that are due. *)
Definition step (w : widget) (ev : event) : widget := settle (handle ev w).

Definition run (evs : list event) (w : widget) : widget := foldl step w evs.

(** The widget after its first render and the first run of the effect. *)
Definition mount (doc : list Element) : widget :=
  commit (Widget doc None false false [] None [] [] 0 [] []).

(** The elements that show the highlight. *)
Definition highlighted (w : widget) : list nat :=
  querySelectorAll ("." +:+ highlight_class) (page w).

(** A page with the two navigation links, and the assistant pointing at
    the dashboard and, 1.5 s later, at the profile, up to the moment the
    second highlight has been applied. *)
Definition navigation : list Element :=
  [ {| el_id := "dashboard-link"; classList := ["nav"] |};
    {| el_id := "profile-link"; classList := [] |} ].

Definition two_hints : list event :=
  [ message "transcript" "assistant" "click the dashboard";
    elapse 500; timer_fires; elapse 1000;
    message "transcript" "assistant" "open your profile";
    elapse 500; timer_fires ].

(** A call started by the user in which the assistant points at the
    dashboard; the highlight is applied half a second later. *)
Definition guided_call : list event :=
  [ click_startCall; call_start;
    message "transcript" "assistant" "click the dashboard";
    elapse 500; timer_fires ].


End VapiWidget.

(** ** The [useLiveTranscription] hook *)

Module LiveTranscription.
Import Browser.
Import DeepgramVoice (Alternative, Channel, DeepgramTranscriptData,
                      transcript, alternatives, channel, is_final).

Record hook := Hook {
  isListening : bool;
  transcriptState : string;
  error : option string;
  deepgramRef : option nat;
  mediaStreamRef : option nat;
  mediaRecorderRef : option nat;
  bufferRef : string
}.

Definition hook0 : hook := Hook false "" None None None None "".
Definition world0 : world hook := World hook0 env0.

Definition setIsListening (v : bool) : M hook unit :=
  modify (λ h, Hook v (transcriptState h) (error h) (deepgramRef h) (mediaStreamRef h)
                    (mediaRecorderRef h) (bufferRef h)).
Definition setTranscript (v : string) : M hook unit :=
  modify (λ h, Hook (isListening h) v (error h) (deepgramRef h) (mediaStreamRef h)
                    (mediaRecorderRef h) (bufferRef h)).
Definition setErrorState (v : string) : M hook unit :=
  modify (λ h, Hook (isListening h) (transcriptState h) (Some v) (deepgramRef h)
                    (mediaStreamRef h) (mediaRecorderRef h) (bufferRef h)).
Definition set_deepgramRef (v : option nat) (h : hook) : hook :=
  Hook (isListening h) (transcriptState h) (error h) v (mediaStreamRef h)
       (mediaRecorderRef h) (bufferRef h).
Definition set_mediaStreamRef (v : option nat) (h : hook) : hook :=
  Hook (isListening h) (transcriptState h) (error h) (deepgramRef h) v
       (mediaRecorderRef h) (bufferRef h).
Definition set_mediaRecorderRef (v : option nat) (h : hook) : hook :=
  Hook (isListening h) (transcriptState h) (error h) (deepgramRef h) (mediaStreamRef h)
       v (bufferRef h).
Definition set_bufferRef (v : string) (h : hook) : hook :=
  Hook (isListening h) (transcriptState h) (error h) (deepgramRef h) (mediaStreamRef h)
       (mediaRecorderRef h) v.

(** The Transcript handler: reading [.transcript] of a missing first
    alternative is a TypeError. *)
Definition onTranscript (data : DeepgramTranscriptData) : M hook unit :=
  match alternatives (channel data) !! 0 with
  | None => throw "TypeError"
  | Some a =>
      let transcriptText := transcript a in
      if Js.truthy transcriptText then
        b ← gets bufferRef;
        modify (set_bufferRef (b +:+ (if Js.truthy b then " " else "") +:+ transcriptText));;
        b' ← gets bufferRef;
        setTranscript b'
      else mret ()
  end.

Section Hook.
Context (throws : oracle).

(** [startListening] up to the [await] of [fetchDeepgramToken]. *)
Definition startListening : M hook unit :=
  p ← gets_env invocations;
  modify_env next_invocation;;
  note (fetch_token p);;
  modify_env (set_pending p (Some await_token)).

(** From the settled token to the microphone request: a failed fetch sets
    the error and ends the start; otherwise the connection is created, its
    Transcript handler registered and the microphone requested. *)
Definition startListening_token (p : nat) (r : fetch_result) : M hook unit :=
  modify_env (set_pending p None);;
  match r with
  | token_json (Some (String c t)) =>
      ext throws (listen_live p);;
      modify_env (add_connection p);;
      modify (set_deepgramRef (Some p));;
      note (getUserMedia p);;
      modify_env (set_pending p (Some await_microphone))
  | _ => setErrorState "Could not fetch Deepgram token"
  end.

(** From the settled microphone request to the end, inside the [try]. *)
Definition startListening_microphone (p : nat) (r : microphone_result) : M hook unit :=
  modify_env (set_pending p None);;
  tryCatchWith
    (match r with
     | microphone_rejected err => throw err
     | stream_granted =>
         modify (set_mediaStreamRef (Some p));;
         ext throws (new_MediaRecorder p);;
         modify_env (set_recorder p fresh);;
         modify (set_mediaRecorderRef (Some p));;
         MediaRecorder_start throws p 250;;
         setIsListening true
     end)
    (λ err, setErrorState ("Microphone error: " +:+ err)).

(** [ondataavailable] of recorder [k]: the chunk goes to whatever
    connection [deepgramRef] holds now. *)
Definition onDataAvailable (size : nat) : M hook unit :=
  c ← gets deepgramRef;
  match c with
  | Some k => if 0 <? size then ext throws (conn_send k) else mret ()
  | None => mret ()
  end.

Definition stopListening : M hook unit :=
  (r ← gets mediaRecorderRef;
   st ← gets_env recorders;
   match r with
   | Some k =>
       match st !! k with
       | Some recording => MediaRecorder_stop throws k
       | _ => mret ()
       end
   | None => mret ()
   end);;
  (s ← gets mediaStreamRef;
   match s with Some k => note (track_stop k) | None => mret () end);;
  (c ← gets deepgramRef;
   match c with Some k => ext throws (conn_finish k) | None => mret () end);;
  setIsListening false.

Inductive event :=
| click_start
| click_stop
| token_settled (p : nat) (r : fetch_result)
| microphone_settled (p : nat) (r : microphone_result)
| Open (k : nat)
| Transcript (k : nat) (data : DeepgramTranscriptData)
| dataavailable (k : nat) (size : nat).

Definition recorder_has_data (k : nat) (e : env) : bool :=
  match recorders e !! k with Some recording | Some stopped => true | _ => false end.

(** No handler is registered for the Open event of the connection. *)
Definition handle (ev : event) : M hook unit :=
  match ev with
  | click_start => startListening
  | click_stop => stopListening
  | token_settled p r => when (awaits p await_token) (startListening_token p r)
  | microphone_settled p r =>
      when (awaits p await_microphone) (startListening_microphone p r)
  | Open k => mret ()
  | Transcript k data => when (listening k) (onTranscript data)
  | dataavailable k size => when (recorder_has_data k) (onDataAvailable size)
  end.

Definition step (w : world hook) (ev : event) : world hook := (handle ev w).2.

Definition run (evs : list event) (w : world hook) : world hook := foldl step w evs.

End Hook.

Definition deliver (ds : list DeepgramTranscriptData) (w : world hook) : world hook :=
  foldl (λ (w : world hook) d, (onTranscript d w).2) w ds.

(** The release calls [stopListening] makes when nothing throws. *)
Definition live_stops (v : world hook) : list call :=
  match mediaRecorderRef (hk v) with
  | Some k => match recorders (envr v) !! k with
              | Some recording => [recorder_stop k]
              | _ => []
              end
  | None => []
  end ++
  match mediaStreamRef (hk v) with Some k => [track_stop k] | None => [] end ++
  match deepgramRef (hk v) with Some k => [conn_finish k] | None => [] end.

(** A session that hears "hello" and is then stopped, and a session whose
    recorder delivers a chunk; no Open event is delivered in either. *)
Definition hello_then_stop : list event :=
  [ click_start;
    token_settled 0 (token_json (Some "tok"));
    microphone_settled 0 stream_granted;
    Transcript 0 (DeepgramVoice.FinalText "hello");
    click_stop ].

Definition chunk_without_open : list event :=
  [ click_start;
    token_settled 0 (token_json (Some "tok"));
    microphone_settled 0 stream_granted;
    dataavailable 0 4096 ].

Definition is_Open (ev : event) : bool :=
  match ev with Open _ => true | _ => false end.

End LiveTranscription.

(** ** What a run of payloads commits *)

Module Transcripts.
Import Browser DeepgramVoice.

(** The text a payload commits in [useDeepgramVoice]: the trimmed first
    alternative of a final result, when it is not empty. *)
Definition piece (d : DeepgramTranscriptData) : option string :=
  match txt_of d with
  | Some t => if Js.truthy t && is_final d then Some t else None
  | None => None
  end.

Definition pieces (ds : list DeepgramTranscriptData) : list string := omap piece ds.

(** The text a payload commits in [useLiveTranscription]: the first
    alternative as it comes, when it is not empty. *)
Definition raw_piece (d : DeepgramTranscriptData) : option string :=
  match alternatives (channel d) !! 0 with
  | Some a => if Js.truthy (transcript a) then Some (transcript a) else None
  | None => None
  end.

Definition raw_pieces (ds : list DeepgramTranscriptData) : list string := omap raw_piece ds.

(** The update callbacks owed to a list of committed texts: the first one,
    the first two joined, and so on. *)
Definition updates (ts : list string) : list call :=
  (λ n, onTranscriptUpdate (String.concat " " (take n ts))) <$> seq 1 (length ts).

End Transcripts.

(** ** The token route *)

Module TokenRoute.

(** What [dg.auth.grantToken()] comes back with: a result, an error, or an
    exception (one thrown by [createClient] included). *)
Inductive grant :=
| granted (access_token : string)
| refused (message : string)
| threw.

Record response := { status : nat; token : option string; error : option string }.

(** [NextResponse.json({ token })] and [NextResponse.json({ error }, { status: 500 })] *)
Definition json_token (t : string) : response :=
  {| status := 200; token := Some t; error := None |}.
Definition json_error (m : string) : response :=
  {| status := 500; token := None; error := Some m |}.

(** [GET], given [process.env.DEEPGRAM_API_KEY] and the outcome of the
    grant. *)
Definition GET (apiKey : option string) (g : grant) : response :=
  if negb (Js.truthy_opt apiKey) then json_error "Missing Deepgram API key"
  else match g with
       | refused message => json_error message
       | granted access_token => json_token access_token
       | threw => json_error "Failed to fetch token"
       end.

(** What [await tokenRes.json()] gives the hooks: the body, whatever the
    status. *)
Definition body (r : response) : Browser.fetch_result := Browser.token_json (token r).

End TokenRoute.

(** ** The [DeepgramTranscriber] component *)

Module Transcriber.
Import Browser.
Import DeepgramVoice (Alternative, Channel, DeepgramTranscriptData,
                      transcript, alternatives, channel, is_final).

(** Which of the optional callbacks the parent passes. *)
Record props := { has_onTranscript : bool; has_onError : bool }.

(** The refs and state of the component, and the effect runs whose
    [isComponentMounted] has been cleared. *)
Record hook := Hook {
  connectionRef : option nat;
  mediaRecorderRef : option nat;
  mediaStreamRef : option nat;
  isListening : bool;
  isConnected : bool;
  error : option string;
  unmounted : gset nat
}.

Definition hook0 : hook := Hook None None None false false None ∅.
Definition world0 : world hook := World hook0 env0.

Definition set_connectionRef (v : option nat) (h : hook) : hook :=
  Hook v (mediaRecorderRef h) (mediaStreamRef h) (isListening h) (isConnected h)
       (error h) (unmounted h).
Definition set_mediaRecorderRef (v : option nat) (h : hook) : hook :=
  Hook (connectionRef h) v (mediaStreamRef h) (isListening h) (isConnected h)
       (error h) (unmounted h).
Definition set_mediaStreamRef (v : option nat) (h : hook) : hook :=
  Hook (connectionRef h) (mediaRecorderRef h) v (isListening h) (isConnected h)
       (error h) (unmounted h).
Definition setIsListening (v : bool) : M hook unit :=
  modify (λ h, Hook (connectionRef h) (mediaRecorderRef h) (mediaStreamRef h) v
                    (isConnected h) (error h) (unmounted h)).
Definition setIsConnected (v : bool) : M hook unit :=
  modify (λ h, Hook (connectionRef h) (mediaRecorderRef h) (mediaStreamRef h)
                    (isListening h) v (error h) (unmounted h)).
Definition setError (v : option string) : M hook unit :=
  modify (λ h, Hook (connectionRef h) (mediaRecorderRef h) (mediaStreamRef h)
                    (isListening h) (isConnected h) v (unmounted h)).
Definition clear_mounted (p : nat) (h : hook) : hook :=
  Hook (connectionRef h) (mediaRecorderRef h) (mediaStreamRef h) (isListening h)
       (isConnected h) (error h) ({[p]} ∪ unmounted h).

(** [if (isComponentMounted) { m }], for the effect run [p]. *)
Definition if_mounted (p : nat) (m : M hook unit) : M hook unit :=
  λ w, if bool_decide (p ∈ unmounted (hk w)) then (returned (), w) else m w.

(** [if (callback) callback(...)] *)
Definition call_if (given : bool) (c : call) : M hook unit :=
  if given then note c else mret ().

Section Component.
Context (throws : oracle) (pr : props).

Definition cleanup : M hook unit :=
  (r ← gets mediaRecorderRef;
   st ← gets_env recorders;
   match r with
   | Some k =>
       match st !! k with
       | Some recording => tryCatch (MediaRecorder_stop throws k)
       | _ => mret ()
       end
   | None => mret ()
   end);;
  (s ← gets mediaStreamRef;
   match s with
   | Some k => note (track_stop k);; modify (set_mediaStreamRef None)
   | None => mret ()
   end);;
  (c ← gets connectionRef;
   match c with
   | Some k => tryCatch (ext throws (conn_finish k));; modify (set_connectionRef None)
   | None => mret ()
   end);;
  setIsListening false;;
  setIsConnected false.

(** The effect: [startTranscription] up to the [await] of [getUserMedia]. *)
Definition effect_run : M hook unit :=
  p ← gets_env invocations;
  modify_env next_invocation;;
  setError None;;
  note (getUserMedia p);;
  modify_env (set_pending p (Some await_microphone)).

(** What the effect returns. *)
Definition effect_cleanup (p : nat) : M hook unit :=
  modify (clear_mounted p);;
  cleanup.

(** The [catch] of [startTranscription]; what is thrown is an [Error]
    with the message [err]. *)
Definition on_init_error (p : nat) (err : string) : M hook unit :=
  if_mounted p
    (setError (Some err);;
     setIsListening false;;
     setIsConnected false;;
     call_if (has_onError pr) (onError err)).

(** [startTranscription] from the settled [getUserMedia] to its end. *)
Definition startTranscription (p : nat) (r : microphone_result) : M hook unit :=
  modify_env (set_pending p None);;
  tryCatchWith
    (match r with
     | microphone_rejected err => throw err
     | stream_granted =>
         λ w, if bool_decide (p ∈ unmounted (hk w)) then note (track_stop p) w
              else (modify (set_mediaStreamRef (Some p));;
                    ext throws (listen_live p);;
                    modify_env (add_connection p);;
                    modify (set_connectionRef (Some p));;
                    ext throws (new_MediaRecorder p);;
                    modify_env (set_recorder p fresh);;
                    modify (set_mediaRecorderRef (Some p));;
                    MediaRecorder_start throws p 100) w
     end)
    (on_init_error p).

Definition onOpen (p : nat) : M hook unit :=
  if_mounted p (setIsConnected true;; setIsListening true).

Definition onClose (p : nat) : M hook unit :=
  if_mounted p (setIsConnected false;; setIsListening false).

(** [error?.message || "Connection error"] *)
Definition onConnectionError (p : nat) (message : option string) : M hook unit :=
  if_mounted p
    (let errorMsg := if Js.truthy_opt message then default "" message
                     else "Connection error" in
     setError (Some errorMsg);;
     setIsListening false;;
     setIsConnected false;;
     call_if (has_onError pr) (onError errorMsg)).

(** The Transcript handler; the consumer's [onTranscript] is recorded as
    [onTranscriptUpdate]. *)
Definition onTranscript (p : nat) (data : DeepgramTranscriptData) : M hook unit :=
  if_mounted p
    (let text := transcript <$> (alternatives (channel data) !! 0) in
     if Js.truthy_opt text && Js.truthy (Js.trim (default "" text)) && is_final data
     then call_if (has_onTranscript pr) (onTranscriptUpdate (default "" text))
     else mret ()).

Definition onDataAvailable (p size : nat) : M hook unit :=
  if 0 <? size then if_mounted p (ext throws (conn_send p)) else mret ().

Definition onRecorderError (p : nat) : M hook unit :=
  if_mounted p (call_if (has_onError pr) (onError "MediaRecorder error occurred")).

Inductive event :=
| mount
| unmount (p : nat)
| microphone_settled (p : nat) (r : microphone_result)
| Open (k : nat)
| Close (k : nat)
| Error (k : nat) (message : option string)
| Transcript (k : nat) (data : DeepgramTranscriptData)
| dataavailable (k size : nat)
| recorder_error (k : nat).

Definition has_run (p : nat) (e : env) : bool := p <? invocations e.

Definition recorder_emits (k : nat) (e : env) : bool :=
  match recorders e !! k with Some recording | Some stopped => true | _ => false end.

Definition recorder_exists (k : nat) (e : env) : bool :=
  match recorders e !! k with Some _ => true | None => false end.

(** Dispatch: the effect of run [p] is cleaned up only once it has run;
    the rest as in the hooks. *)
Definition handle (ev : event) : M hook unit :=
  match ev with
  | mount => effect_run
  | unmount p => when (has_run p) (effect_cleanup p)
  | microphone_settled p r => when (awaits p await_microphone) (startTranscription p r)
  | Open k => when (listening k) (onOpen k)
  | Close k => when (listening k) (onClose k)
  | Error k message => when (listening k) (onConnectionError k message)
  | Transcript k data => when (listening k) (onTranscript k data)
  | dataavailable k size => when (recorder_emits k) (onDataAvailable k size)
  | recorder_error k => when (recorder_exists k) (onRecorderError k)
  end.

Definition step (w : world hook) (ev : event) : world hook := (handle ev w).2.

Definition run (evs : list event) (w : world hook) : world hook := foldl step w evs.

End Component.

(** Calls that give a resource back. *)
Definition is_release (c : call) : bool :=
  match c with
  | recorder_stop _ | track_stop _ | conn_finish _ => true
  | _ => false
  end.

Definition is_mount (ev : event) : bool :=
  match ev with mount => true | _ => false end.

(** Every session the environment knows of belongs to an effect run that
    has been cleaned up. *)
Definition all_unmounted (w : world hook) : Prop :=
  ∀ q, is_Some (pending (envr w) !! q) ∨ q ∈ connections (envr w) ∨
       is_Some (recorders (envr w) !! q) →
       q ∈ unmounted (hk w).

End Transcriber.

(** ** Which calls an event of [useDeepgramVoice] can lead to *)

Module Footprint.
Import Browser DeepgramVoice.

Definition causes (ev : event) (c : call) : bool :=
  match ev, c with
  | click_start, recorder_stop _ => true
  | click_start, conn_finish _ => true
  | click_start, fetch_token _ => true
  | click_stop, recorder_stop _ => true
  | click_stop, conn_finish _ => true
  | token_settled p (token_json (Some (String _ _))), getUserMedia q => bool_decide (p = q)
  | token_settled _ (token_json (Some EmptyString)), onError _ => true
  | token_settled _ (token_json None), onError _ => true
  | token_settled _ (fetch_rejected _), onError _ => true
  | microphone_settled p stream_granted, new_MediaRecorder q => bool_decide (p = q)
  | microphone_settled p stream_granted, listen_live q => bool_decide (p = q)
  | microphone_settled _ (microphone_rejected _), onError _ => true
  | Open k, recorder_start j t => bool_decide (k = j ∧ t = 250)
  | Transcript _ d, onTranscriptUpdate _ => is_final d
  | dataavailable k, conn_send j => bool_decide (k = j)
  | recorder_stopped k, track_stop j => bool_decide (k = j)
  | recorder_stopped k, conn_finish j => bool_decide (k = j)
  | _, _ => false
  end.

(** A token fetch that settles without a usable token. *)
Definition token_missing (r : fetch_result) : bool :=
  match r with token_json (Some (String _ _)) => false | _ => true end.

(** What the hook tells the consumer about such a fetch. *)
Definition token_complaint (r : fetch_result) : string :=
  "Could not fetch Deepgram token: " +:+
  match r with
  | fetch_rejected err => err
  | token_json _ => "Error: No Deepgram token"
  end.

End Footprint.

(** ** Parts of the hook state a computation leaves alone *)

Module Frames.
Import Browser.

(** [m] does not change the part [f] of the hook state, however it ends. *)
Definition keeps {H A B} (f : H → B) (m : M H A) : Prop :=
  ∀ w, f (hk (m w).2) = f (hk w).

End Frames.

(** ** Runs of the widget *)

Module WidgetRuns.
Import VapiWidget.

(** What a message contributes to the transcript of the widget. *)
Definition spoken (ev : event) : option (string * string) :=
  match ev with
  | message mtype role text =>
      if bool_decide (mtype = "transcript") then Some (role, text) else None
  | _ => None
  end.

(** The hint an event carries: what [parseForUIElements] finds in an
    assistant utterance. *)
Definition hint_of (ev : event) : option UIElement :=
  match ev with
  | message mtype role text =>
      if bool_decide (mtype = "transcript") && bool_decide (role = "assistant")
      then parseForUIElements text else None
  | _ => None
  end.

(** Phrases of the map that contain a phrase declared before them, and the
    locators only they lead to. *)
Definition shadowed_phrases : list string :=
  [ "email field"; "password field"; "confirm password";
    "enrollment"; "submit task"; "offline submit"; "file upload" ].

Definition unreachable_selectors : list string :=
  [ "#confirm-password-input"; "#submit-task-btn"; "#offline-submit-btn";
    "#file-upload-input" ].

(** The latest run of the effect saw the [currentHighlight] of now: no
    render is due. *)
Definition settled (w : widget) : Prop := last (effects w) = Some (currentHighlight w).

(** A locator that finds elements by something else than the highlight
    class; those of the map are all such. *)
Definition plain (sel : string) : Prop := sel ≠ "." +:+ highlight_class.

(** [currentHighlight] says what is highlighted: nothing when it is
    null, and otherwise the one element its locator finds. *)
Definition current_shown (w : widget) : Prop :=
  match currentHighlight w with
  | Some sel =>
      plain sel ∧ ∃ el, querySelector sel (page w) = Some el ∧ highlighted w = [el]
  | None => highlighted w = []
  end.

(** The same between a handler and the renders it causes, [seen] being
    what the latest run of the effect saw: [currentHighlight] may have been
    reset over an element that this run can still clear. *)
Definition shown_before_render (w : widget) (seen : option string) : Prop :=
  match currentHighlight w with
  | Some sel =>
      plain sel ∧ ∃ el, querySelector sel (page w) = Some el ∧ highlighted w = [el]
  | None =>
      ∀ x, x ∈ highlighted w → ∃ s, seen = Some s ∧ querySelector s (page w) = Some x
  end.

(** The delayed highlights that are pending use plain locators. *)
Definition plain_pending (w : widget) : Prop :=
  Forall (λ t, match todo t with
               | highlight_later sel _ => plain sel
               | unhighlight _ => True
               end) (timers w).

(** [vapi] holds the instance of the latest run of the effect. *)
Definition vapi_current (w : widget) : Prop :=
  effects w ≠ [] ∧ vapi w = Some (length (effects w) - 1).

(** What holds of the widget between two events. *)
Definition coherent (w : widget) : Prop :=
  settled w ∧ current_shown w ∧ plain_pending w ∧ vapi_current w.

(** No timer is pending and nothing is highlighted. *)
Definition quiet (w : widget) : Prop :=
  coherent w ∧ currentHighlight w = None ∧ timers w = [].

End WidgetRuns.

(** ** What the cleanup of the transcriber owes *)

Module TranscriberRuns.
Import Browser Transcriber.

(** The stop of the recorder in [mediaRecorderRef], owed while it records. *)
Definition recorder_release (w : world hook) : list call :=
  match mediaRecorderRef (hk w) with
  | Some k => match recorders (envr w) !! k with
              | Some recording => [recorder_stop k]
              | _ => []
              end
  | None => []
  end.

Definition releases (w : world hook) : list call :=
  recorder_release w ++
  match mediaStreamRef (hk w) with Some k => [track_stop k] | None => [] end ++
  match connectionRef (hk w) with Some k => [conn_finish k] | None => [] end.

(** The first alternative of a payload, when the handler of the component
    passes it on: final, and not blank. *)
Definition passed (d : DeepgramVoice.DeepgramTranscriptData) : option string :=
  match DeepgramVoice.alternatives (DeepgramVoice.channel d) !! 0 with
  | Some a =>
      if Js.truthy (Js.trim (DeepgramVoice.transcript a)) && DeepgramVoice.is_final d
      then Some (DeepgramVoice.transcript a) else None
  | None => None
  end.

End TranscriberRuns.

(** * Properties *)

(** ** Strings *)

Section JsFacts.

Lemma append_cons (x : ascii) (a b : string) : String x a +:+ b = String x (a +:+ b).
Proof. reflexivity. Qed.

Lemma append_nil_l (a : string) : "" +:+ a = a.
Proof. reflexivity. Qed.

Lemma append_assoc (a b c : string) : (a +:+ b) +:+ c = a +:+ (b +:+ c).
Proof.
  induction a as [|x a IH]; [done|]. by rewrite !append_cons, IH.
Qed.

Lemma append_nil_r (a : string) : a +:+ "" = a.
Proof. induction a as [|x a IH]; [done|]. by rewrite append_cons, IH. Qed.

Lemma length_append (a b : string) :
  String.length (a +:+ b) = String.length a + String.length b.
Proof. induction a as [|x a IH]; [done|]. rewrite append_cons. simpl. by rewrite IH. Qed.

Lemma prefix_spec (p s : string) :
  String.prefix p s = true ↔ ∃ r, s = p +:+ r.
Proof.
  revert p. induction s as [|y s IH]; intros [|x p]; simpl.
  - split; [by exists "" | done].
  - split; [done | intros [r Hr]; by rewrite append_cons in Hr].
  - split; [by eexists | done].
  - destruct (ascii_dec x y) as [->|Hne].
    + rewrite IH. split; intros [r Hr]; exists r; rewrite append_cons in *; congruence.
    + split; [done | intros [r Hr]; rewrite append_cons in Hr; congruence].
Qed.

Lemma includes_nil (n : string) : Js.includes "" n = String.prefix n "" || false.
Proof. reflexivity. Qed.

Lemma includes_cons (y : ascii) (s n : string) :
  Js.includes (String y s) n = String.prefix n (String y s) || Js.includes s n.
Proof. reflexivity. Qed.

(** [includes] is the substring relation. *)
Lemma includes_spec (s n : string) :
  Js.includes s n = true ↔ Js.occurs_in n s.
Proof.
  unfold Js.occurs_in. induction s as [|y s IH].
  - rewrite includes_nil, orb_false_r, prefix_spec. split.
    + intros [r Hr]. by exists "", r.
    + intros [[|x a] [b Hb]]; [by exists b | by rewrite append_cons in Hb].
  - rewrite includes_cons, orb_true_iff, prefix_spec, IH. split.
    + intros [[r Hr] | (a & b & Hab)].
      * by exists "", r.
      * exists (String y a), b. by rewrite append_cons, Hab.
    + intros ([|x a] & b & Hab).
      * left. by exists b.
      * right. exists a, b. rewrite append_cons in Hab. congruence.
Qed.

Lemma toLowerCase_append (a b : string) :
  Js.toLowerCase (a +:+ b) = Js.toLowerCase a +:+ Js.toLowerCase b.
Proof.
  induction a as [|x a IH]; [done|].
  rewrite append_cons. simpl. by rewrite append_cons, IH.
Qed.


Lemma trimStart_whitespace (s : string) :
  Js.all_whitespace s = true → Js.trimStart s = "".
Proof.
  induction s as [|c s IH]; simpl; [done|].
  rewrite andb_true_iff. intros [-> Hs]. auto.
Qed.

Lemma trim_whitespace (s : string) : Js.all_whitespace s = true → Js.trim s = "".
Proof. intros Hs. unfold Js.trim. by rewrite trimStart_whitespace. Qed.

Lemma truthy_spec (s : string) : Js.truthy s = true ↔ s ≠ "".
Proof. destruct s; simpl; split; congruence. Qed.

End JsFacts.

(** ** The Transcript handler of [useDeepgramVoice] *)

Section Reconciler.
Import Browser DeepgramVoice.

Ltac run_handler :=
  unfold onTranscript, setLiveTranscript, note, gets, modify, modify_env,
    mbind, M_bind, bind, mret, M_ret, ret; cbv zeta.

(** The three ways of the handler. *)
Lemma onTranscript_final (d : DeepgramTranscriptData) (w : world hook) (t : string) :
  txt_of d = Some t → t ≠ "" → is_final d = true →
  onTranscript d w =
    (let b := bufferRef (hk w) +:+ (if Js.truthy (bufferRef (hk w)) then " " else "") +:+ t in
     (returned (),
      World (Hook (dgConnRef (hk w)) (recorderRef (hk w)) b (isVoiceActive (hk w)) b)
            (push_log (onTranscriptUpdate b) (envr w)))).
Proof.
  intros Ht Hne Hf. run_handler. rewrite Ht, Hf. simpl.
  apply truthy_spec in Hne. by rewrite Hne.
Qed.

Lemma onTranscript_interim (d : DeepgramTranscriptData) (w : world hook) (t : string) :
  txt_of d = Some t → t ≠ "" → is_final d = false →
  onTranscript d w =
    (returned (),
     World (Hook (dgConnRef (hk w)) (recorderRef (hk w)) (bufferRef (hk w))
                 (isVoiceActive (hk w)) (bufferRef (hk w) +:+ " " +:+ t))
           (envr w)).
Proof.
  intros Ht Hne Hf. run_handler. rewrite Ht, Hf. simpl.
  apply truthy_spec in Hne. by rewrite Hne.
Qed.

Lemma onTranscript_ignored (d : DeepgramTranscriptData) (w : world hook) :
  Js.truthy_opt (txt_of d) = false → onTranscript d w = (returned (), w).
Proof.
  intros Ht. run_handler. rewrite Ht. simpl. by destruct w.
Qed.

Lemma onTranscript_cases (d : DeepgramTranscriptData) :
  Js.truthy_opt (txt_of d) = false ∨
  ∃ t, txt_of d = Some t ∧ t ≠ "".
Proof.
  destruct (txt_of d) as [t|] eqn:Ht; simpl; [|by left].
  destruct t; simpl; [by left | right; eauto].
Qed.

(** One payload appends to the buffer, or leaves it. *)
Lemma onTranscript_appends (d : DeepgramTranscriptData) (w : world hook) :
  ∃ appended, bufferRef (hk (onTranscript d w).2) = bufferRef (hk w) +:+ appended.
Proof.
  destruct (onTranscript_cases d) as [Hi | (t & Ht & Hne)].
  - rewrite onTranscript_ignored by done. exists "". by rewrite append_nil_r.
  - destruct (is_final d) eqn:Hf.
    + rewrite (onTranscript_final _ _ t) by done. simpl. eauto.
    + rewrite (onTranscript_interim _ _ t) by done. simpl.
      exists "". by rewrite append_nil_r.
Qed.

Lemma onTranscript_not_final (d : DeepgramTranscriptData) (w : world hook) :
  is_final d = false → bufferRef (hk (onTranscript d w).2) = bufferRef (hk w).
Proof.
  intros Hf. destruct (onTranscript_cases d) as [Hi | (t & Ht & Hne)].
  - by rewrite onTranscript_ignored.
  - by rewrite (onTranscript_interim _ _ t).
Qed.

Lemma deliver_appends (ds : list DeepgramTranscriptData) (w : world hook) :
  ∃ appended, bufferRef (hk (deliver ds w)) = bufferRef (hk w) +:+ appended.
Proof.
  revert w. induction ds as [|d ds IH]; intros w; simpl.
  - exists "". by rewrite append_nil_r.
  - destruct (IH (onTranscript d w).2) as [y Hy].
    destruct (onTranscript_appends d w) as [x Hx].
    exists (x +:+ y). unfold deliver in *. rewrite Hy, Hx. apply append_assoc.
Qed.

End Reconciler.

(** ** The Transcript handler of [useLiveTranscription] *)

Section LiveReconciler.
Import Browser LiveTranscription.
Import DeepgramVoice (DeepgramTranscriptData, alternatives, channel, transcript).

Lemma live_onTranscript_appends (d : DeepgramTranscriptData) (w : world hook) :
  ∃ appended, bufferRef (hk (onTranscript d w).2) = bufferRef (hk w) +:+ appended.
Proof.
  unfold onTranscript.
  destruct (alternatives (channel d) !! 0) as [a|]; simpl.
  - destruct (Js.truthy (transcript a)); simpl; [eauto|].
    exists "". by rewrite append_nil_r.
  - exists "". by rewrite append_nil_r.
Qed.

Lemma live_deliver_appends (ds : list DeepgramTranscriptData) (w : world hook) :
  ∃ appended, bufferRef (hk (deliver ds w)) = bufferRef (hk w) +:+ appended.
Proof.
  revert w. induction ds as [|d ds IH]; intros w; simpl.
  - exists "". by rewrite append_nil_r.
  - destruct (IH (onTranscript d w).2) as [y Hy].
    destruct (live_onTranscript_appends d w) as [x Hx].
    exists (x +:+ y). unfold deliver in *. rewrite Hy, Hx. apply append_assoc.
Qed.

End LiveReconciler.

(** ** Claims on the transcript reconciler *)

Section ReconcilerClaims.
Import Browser DeepgramVoice.

(** C1, as the code has it.  In [useDeepgramVoice] the committed
    transcript only grows within a session: whatever Transcript payloads
    are delivered, the buffer after a longer run extends the buffer after
    any shorter run of the same payloads (so it is never shorter and
    nothing committed is rewritten), and a payload that is not final leaves
    the buffer as it is.  The buffer of [useLiveTranscription] only grows
    in the same way, but its handler does not look at [is_final]: it
    commits a payload that is not final just as it commits a final one. *)
Theorem committed_transcript_only_grows
    (ds1 ds2 : list DeepgramTranscriptData)
    (w : world hook) (v : world LiveTranscription.hook) :
  let committed ds := bufferRef (hk (deliver ds w)) in
  let committed_live ds :=
    LiveTranscription.bufferRef (hk (LiveTranscription.deliver ds v)) in
  (∃ appended, committed (ds1 ++ ds2) = committed ds1 +:+ appended) ∧
  String.length (committed ds1) ≤ String.length (committed (ds1 ++ ds2)) ∧
  (∀ c, committed (ds1 ++ [ {| channel := c; is_final := false |} ]) = committed ds1) ∧
  (∀ t, committed (ds1 ++ [PartialText t]) = committed ds1) ∧
  (∃ appended, committed_live (ds1 ++ ds2) = committed_live ds1 +:+ appended) ∧
  String.length (committed_live ds1) ≤ String.length (committed_live (ds1 ++ ds2)) ∧
  (∀ c f, committed_live (ds1 ++ [ {| channel := c; is_final := f |} ]) =
          committed_live (ds1 ++ [ {| channel := c; is_final := true |} ])).
Proof.
  cbv zeta.
  assert (Hgrow : ∃ appended,
    bufferRef (hk (deliver (ds1 ++ ds2) w)) = bufferRef (hk (deliver ds1 w)) +:+ appended).
  { unfold deliver. rewrite foldl_app. apply deliver_appends. }
  assert (Hlive : ∃ appended,
    LiveTranscription.bufferRef (hk (LiveTranscription.deliver (ds1 ++ ds2) v)) =
    LiveTranscription.bufferRef (hk (LiveTranscription.deliver ds1 v)) +:+ appended).
  { unfold LiveTranscription.deliver. rewrite foldl_app. apply live_deliver_appends. }
  assert (Hpart : ∀ d, is_final d = false →
    bufferRef (hk (deliver (ds1 ++ [d]) w)) = bufferRef (hk (deliver ds1 w))).
  { intros d Hd. unfold deliver. rewrite foldl_snoc. by apply onTranscript_not_final. }
  repeat split.
  - exact Hgrow.
  - destruct Hgrow as [x ->]. rewrite length_append. lia.
  - intros c. by apply Hpart.
  - intros t. by apply Hpart.
  - exact Hlive.
  - destruct Hlive as [x ->]. rewrite length_append. lia.
  - intros c f. unfold LiveTranscription.deliver. by rewrite !foldl_snoc.
Qed.

(** C1 as stated fails in [useLiveTranscription]: after the final result
    "one", the interim result "tw" changes the buffer. *)
Lemma live_partial_is_committed :
  LiveTranscription.bufferRef
    (hk (LiveTranscription.deliver [FinalText "one"] LiveTranscription.world0)) = "one" ∧
  LiveTranscription.bufferRef
    (hk (LiveTranscription.deliver [FinalText "one"; PartialText "tw"]
           LiveTranscription.world0)) = "one tw".
Proof. by vm_compute. Qed.

(** C5, as the code has it.  A PartialText whose text is not empty after
    trimming, arriving while the committed transcript is not empty, makes
    the live transcript the committed transcript, one space and the trimmed
    text, and leaves the committed transcript alone.  From an empty session,
    PartialText "creat", PartialText "create cour", FinalText "create course"
    show, after the second event, a live transcript that trims to
    "create cour" over a still empty committed transcript, and after the
    third a committed transcript "create course" that the live transcript
    repeats. *)
Theorem live_transcript_after_partial (t : string) (w : world hook) :
  Js.trim t ≠ "" → bufferRef (hk w) ≠ "" →
  let w' := (onTranscript (PartialText t) w).2 in
  let w2 := deliver [PartialText "creat"; PartialText "create cour"] world0 in
  let w3 := deliver [PartialText "creat"; PartialText "create cour";
                     FinalText "create course"] world0 in
  liveTranscript (hk w') = bufferRef (hk w) +:+ " " +:+ Js.trim t ∧
  bufferRef (hk w') = bufferRef (hk w) ∧
  Js.trim (liveTranscript (hk w2)) = "create cour" ∧
  bufferRef (hk w2) = "" ∧
  bufferRef (hk w3) = "create course" ∧
  liveTranscript (hk w3) = "create course".
Proof.
  intros Ht Hb. cbv zeta.
  rewrite (onTranscript_interim _ _ (Js.trim t)) by done.
  repeat split; vm_compute; reflexivity.
Qed.

Lemma live_transcript_after_partial_witness :
  liveTranscript
    (hk (onTranscript (PartialText " cour ") (deliver [FinalText "create"] world0)).2)
  = "create cour".
Proof.
  refine (proj1 (live_transcript_after_partial " cour "
                   (deliver [FinalText "create"] world0) _ _));
    vm_compute; discriminate.
Defined.

(** C5 as stated fails: with nothing committed yet the interim branch still
    puts the separating space first, and after the final result the live
    transcript is the committed text, not empty. *)
Lemma preview_scenario_counterexample :
  liveTranscript
    (hk (deliver [PartialText "creat"; PartialText "create cour"] world0))
  = " create cour" ∧
  liveTranscript
    (hk (deliver [PartialText "creat"; PartialText "create cour"] world0))
  ≠ "create cour" ∧
  liveTranscript
    (hk (deliver [PartialText "creat"; PartialText "create cour";
                  FinalText "create course"] world0))
  = "create course" ∧
  liveTranscript
    (hk (deliver [PartialText "creat"; PartialText "create cour";
                  FinalText "create course"] world0))
  ≠ "".
Proof. vm_compute. repeat split; discriminate. Qed.

(** C6, as the code has it.  A FinalText whose text is empty after trimming
    is ignored, also right after a PartialText: nothing is appended to the
    committed transcript, no update is emitted, and the live transcript
    keeps showing what the PartialText put there. *)
Theorem empty_final_is_ignored (p t : string) (w : world hook) :
  Js.trim t = "" →
  deliver [PartialText p; FinalText t] w = deliver [PartialText p] w ∧
  bufferRef (hk (deliver [PartialText p; FinalText t] w)) = bufferRef (hk w) ∧
  liveTranscript (hk (deliver [PartialText p; FinalText t] w)) =
    (if Js.truthy (Js.trim p) then bufferRef (hk w) +:+ " " +:+ Js.trim p
     else liveTranscript (hk w)).
Proof.
  intros Ht.
  assert (Hign : ∀ u, (onTranscript (FinalText t) u).2 = u).
  { intros u. rewrite onTranscript_ignored; [done|]. unfold txt_of. simpl. by rewrite Ht. }
  unfold deliver. simpl. rewrite Hign.
  split; [done|].
  destruct (Js.trim p) as [|c r] eqn:Hp.
  - rewrite onTranscript_ignored; [done|]. unfold txt_of. simpl. by rewrite Hp.
  - rewrite (onTranscript_interim _ _ (String c r)); [done| |done|done].
    unfold txt_of. simpl. by rewrite Hp.
Qed.

Lemma empty_final_is_ignored_witness :
  liveTranscript (hk (deliver [PartialText "hello"; FinalText "   "] world0)) = " hello".
Proof.
  refine (proj2 (proj2 (empty_final_is_ignored "hello" "   " world0 _))).
  vm_compute. reflexivity.
Defined.

(** C6 as stated fails: the interim text stays on display after the empty
    final result. *)
Lemma empty_final_counterexample :
  liveTranscript (hk (deliver [PartialText "hello"; FinalText "   "] world0)) = " hello" ∧
  liveTranscript (hk (deliver [PartialText "hello"; FinalText "   "] world0)) ≠ "" ∧
  liveTranscript (hk (deliver [PartialText "hello"; FinalText "   "] world0)) ≠
    bufferRef (hk (deliver [PartialText "hello"; FinalText "   "] world0)).
Proof. vm_compute. repeat split; discriminate. Qed.

(** C10.  The Transcript handler of [useDeepgramVoice] returns normally on
    every payload, the one without alternatives included; and a payload
    without alternatives, or whose first alternative is white space only,
    changes nothing: neither the committed buffer nor the live transcript,
    and no callback is invoked. *)
Theorem transcript_handler_total (d : DeepgramTranscriptData) (w : world hook) :
  (onTranscript d w).1 = returned () ∧
  (alternatives (channel d) = [] → (onTranscript d w).2 = w) ∧
  (∀ a rest, alternatives (channel d) = a :: rest →
             Js.all_whitespace (transcript a) = true →
             (onTranscript d w).2 = w).
Proof.
  split; [|split].
  - destruct (onTranscript_cases d) as [Hi | (t & Ht & Hne)].
    + by rewrite onTranscript_ignored.
    + destruct (is_final d) eqn:Hf.
      * by rewrite (onTranscript_final _ _ t).
      * by rewrite (onTranscript_interim _ _ t).
  - intros Hd. rewrite onTranscript_ignored; [done|].
    unfold txt_of. by rewrite Hd.
  - intros a rest Hd Ha. rewrite onTranscript_ignored; [done|].
    unfold txt_of. rewrite Hd. simpl. by rewrite trim_whitespace.
Qed.

Lemma transcript_handler_total_witness :
  (onTranscript {| channel := {| alternatives := [] |}; is_final := true |} world0).2
    = world0 ∧
  (onTranscript (FinalText "   ") world0).2 = world0.
Proof.
  split.
  - apply (proj1 (proj2 (transcript_handler_total
             {| channel := {| alternatives := [] |}; is_final := true |} world0))).
    reflexivity.
  - apply (proj2 (proj2 (transcript_handler_total (FinalText "   ") world0))
             {| transcript := "   " |} []); reflexivity.
Defined.

End ReconcilerClaims.

(** ** Claims on the command router *)

Section RouterClaims.
Import CommandRouter.




End RouterClaims.

(** ** The page and the highlight *)

Section WidgetFacts.
Import VapiWidget WidgetRuns.

Lemma scan_Some (lower : string) (entries : list (string * string)) (name sel : string) :
  scan lower entries = Some {| elementName := name; selector := sel |} ↔
  ∃ before after,
    entries = before ++ (name, sel) :: after ∧
    Js.includes lower (Js.toLowerCase name) = true ∧
    Forall (λ e, Js.includes lower (Js.toLowerCase e.1) = false) before.
Proof.
  induction entries as [|[n s] rest IH]; simpl.
  - split; [done|]. intros (before & after & H & _). by destruct before.
  - destruct (Js.includes lower (Js.toLowerCase n)) eqn:Hn.
    + split.
      * intros [= -> ->]. exists [], rest. by repeat split.
      * intros ([|[n' s'] before] & after & H & Hin & Hb).
        -- by injection H as -> -> _.
        -- injection H as -> -> _. apply Forall_cons in Hb as [Hb _]. simpl in Hb. congruence.
    + rewrite IH. split.
      * intros (before & after & -> & Hin & Hb).
        exists ((n, s) :: before), after. repeat split; [done|]. by constructor.
      * intros ([|[n' s'] before] & after & H & Hin & Hb).
        -- injection H as -> -> _. congruence.
        -- injection H as -> -> ->. apply Forall_cons in Hb as [_ Hb]. eauto.
Qed.

Lemma scan_None (lower : string) (entries : list (string * string)) :
  scan lower entries = None ↔
  Forall (λ e, Js.includes lower (Js.toLowerCase e.1) = false) entries.
Proof.
  induction entries as [|[n s] rest IH]; simpl.
  - split; [constructor | done].
  - destruct (Js.includes lower (Js.toLowerCase n)) eqn:Hn.
    + split; [done|]. intros [H _]%Forall_cons. simpl in H. congruence.
    + rewrite IH. split; [by constructor | by intros [_ H]%Forall_cons].
Qed.



Lemma querySelector_from_Some (i j : nat) (sel : string) (doc : list Element) :
  querySelector_from i sel doc = Some j →
  ∃ e, i ≤ j ∧ doc !! (j - i) = Some e ∧ matches sel e = true.
Proof.
  revert i. induction doc as [|e doc IH]; intros i; simpl; [done|].
  destruct (matches sel e) eqn:He.
  - intros [= ->]. exists e. rewrite Nat.sub_diag. by repeat split.
  - intros (e' & Hle & Hl & Hm)%IH. exists e'. repeat split; [lia| |done].
    replace (j - i) with (S (j - S i)) by lia. done.
Qed.

Lemma querySelector_Some (j : nat) (sel : string) (doc : list Element) :
  querySelector sel doc = Some j → ∃ e, doc !! j = Some e ∧ matches sel e = true.
Proof.
  intros (e & _ & Hl & Hm)%querySelector_from_Some.
  rewrite Nat.sub_0_r in Hl. eauto.
Qed.

Lemma querySelectorAll_from_none (i : nat) (sel : string) (doc : list Element) :
  Forall (λ e, matches sel e = false) doc → querySelectorAll_from i sel doc = [].
Proof.
  revert i. induction doc as [|e doc IH]; intros i; simpl; [done|].
  intros [-> Hd]%Forall_cons. simpl. auto.
Qed.

Lemma alter_head {A} (f : A → A) (x : A) (l : list A) : alter f 0 (x :: l) = f x :: l.
Proof. reflexivity. Qed.

Lemma alter_tail {A} (f : A → A) (x : A) (l : list A) (j : nat) :
  alter f (S j) (x :: l) = x :: alter f j l.
Proof. reflexivity. Qed.

Lemma querySelectorAll_from_one (i j : nat) (sel : string) (f : Element → Element)
    (doc : list Element) (e : Element) :
  Forall (λ e, matches sel e = false) doc →
  doc !! j = Some e → matches sel (f e) = true →
  querySelectorAll_from i sel (alter f j doc) = [i + j].
Proof.
  revert i j. induction doc as [|x doc IH]; intros i j; [done|].
  intros [Hx Hd]%Forall_cons. destruct j as [|j].
  - intros [= ->] Hm. rewrite alter_head. simpl. rewrite Hm. simpl.
    rewrite querySelectorAll_from_none by done. by rewrite Nat.add_0_r.
  - intros Hl Hm. rewrite alter_tail. simpl. rewrite Hx. simpl.
    rewrite (IH (S i) j) by done. f_equal. lia.
Qed.

Lemma querySelectorAll_from_elem (i j : nat) (sel : string) (doc : list Element) :
  j ∈ querySelectorAll_from i sel doc ↔
  ∃ e, i ≤ j ∧ doc !! (j - i) = Some e ∧ matches sel e = true.
Proof.
  revert i. induction doc as [|x doc IH]; intros i; simpl.
  - split; [by intros ?%elem_of_nil | by intros (? & ? & ? & ?)].
  - rewrite elem_of_app, IH. split.
    + intros [Hj | (e & Hle & Hl & Hm)].
      * destruct (matches sel x) eqn:Hx; [|by apply elem_of_nil in Hj].
        apply list_elem_of_singleton in Hj as ->. exists x.
        rewrite Nat.sub_diag. by repeat split.
      * exists e. repeat split; [lia| |done].
        replace (j - i) with (S (j - S i)) by lia. done.
    + intros (e & Hle & Hl & Hm). destruct (decide (j = i)) as [->|Hne].
      * rewrite Nat.sub_diag in Hl. injection Hl as ->. rewrite Hm. left.
        by apply list_elem_of_singleton.
      * right. exists e. repeat split; [lia| |done].
        replace (j - i) with (S (j - S i)) in Hl by lia. done.
Qed.

(** Removing a class cannot make more elements match a class selector. *)
Lemma querySelectorAll_from_remove (i j : nat) (c : string) (doc : list Element) :
  length (querySelectorAll_from i ("." +:+ c) (alter (classList_remove c) j doc)) ≤
  length (querySelectorAll_from i ("." +:+ c) doc).
Proof.
  revert i j. induction doc as [|x doc IH]; intros i j; [done|].
  destruct j as [|j].
  - rewrite alter_head. simpl. rewrite !length_app.
    assert (c ∉ filter (λ y, y ≠ c) (classList x)) as Hc.
    { rewrite list_elem_of_filter. tauto. }
    rewrite (bool_decide_eq_false_2 _ Hc). simpl. lia.
  - rewrite alter_tail. simpl. rewrite !length_app. specialize (IH (S i) j). lia.
Qed.

Lemma matches_class (c : string) (e : Element) :
  matches ("." +:+ c) e = bool_decide (c ∈ classList e).
Proof. reflexivity. Qed.

Lemma classList_remove_hides (c : string) (e : Element) :
  matches ("." +:+ c) (classList_remove c e) = false.
Proof.
  rewrite matches_class. apply bool_decide_eq_false_2. simpl.
  rewrite list_elem_of_filter. tauto.
Qed.

Lemma classList_add_shows (c : string) (e : Element) :
  matches ("." +:+ c) (classList_add c e) = true.
Proof.
  rewrite matches_class. apply bool_decide_eq_true_2. unfold classList_add.
  case_bool_decide; [done|]. simpl. apply elem_of_app. right. by apply list_elem_of_singleton.
Qed.

Lemma classList_remove_idemp (c : string) (e : Element) :
  classList_remove c (classList_remove c e) = classList_remove c e.
Proof.
  unfold classList_remove. simpl. f_equal.
  induction (classList e) as [|x l IH]; [done|].
  rewrite filter_cons. case_decide.
  - rewrite filter_cons. rewrite decide_True by done. by rewrite IH.
  - done.
Qed.

(** Altering at each index of a list, with an idempotent function. *)
Lemma foldl_alter_lookup {A} (f : A → A) (L : list nat) (doc : list A) (j : nat) :
  (∀ x, f (f x) = f x) →
  foldl (λ d i, alter f i d) doc L !! j =
    if bool_decide (j ∈ L) then f <$> doc !! j else doc !! j.
Proof.
  intros Hf. revert doc. induction L as [|i L IH]; intros doc; simpl; [done|].
  rewrite IH. destruct (decide (i = j)) as [->|Hne].
  - rewrite list_lookup_alter_eq.
    rewrite (bool_decide_eq_true_2 (j ∈ j :: L)) by (by left).
    case_bool_decide; [|done].
    destruct (doc !! j); simpl; [by rewrite Hf | done].
  - rewrite list_lookup_alter_ne by done.
    case_bool_decide as HL.
    + rewrite bool_decide_eq_true_2; [done | by right].
    + rewrite bool_decide_eq_false_2; [done|].
      intros [->|?]%elem_of_cons; done.
Qed.

(** The loop that removes the class from every element that has it. *)
Lemma remove_all_hides (c : string) (doc : list Element) :
  Forall (λ e, matches ("." +:+ c) e = false)
    (foldl (λ d el, alter (classList_remove c) el d) doc
           (querySelectorAll ("." +:+ c) doc)).
Proof.
  apply Forall_lookup_2. intros j e'.
  rewrite foldl_alter_lookup by apply classList_remove_idemp.
  case_bool_decide as Hj.
  - destruct (doc !! j) as [e|]; simpl; [|done].
    intros [= <-]. apply classList_remove_hides.
  - intros Hl. destruct (matches ("." +:+ c) e') eqn:Hm; [|done].
    exfalso. apply Hj. apply querySelectorAll_from_elem.
    exists e'. rewrite Nat.sub_0_r. repeat split; [lia|done|done].
Qed.

Lemma highlightElement_found (sel name : string) (w : widget) (el : nat) :
  querySelector sel (page w) = Some el →
  highlighted (highlightElement sel name w) = [el] ∧
  currentHighlight (highlightElement sel name w) = Some sel ∧
  timers (highlightElement sel name w) =
    timers w ++ [ {| deadline := (now w + 5000)%N; todo := unhighlight el |} ].
Proof.
  intros Hq. unfold highlightElement. rewrite Hq. simpl.
  split; [|done]. unfold highlighted. simpl.
  destruct (querySelector_Some _ _ _ Hq) as (e & He & _).
  pose proof (remove_all_hides highlight_class (page w)) as Hclear.
  set (cleared := foldl _ _ _) in *.
  assert (∃ e', cleared !! el = Some e') as [e' He'].
  { unfold cleared. rewrite foldl_alter_lookup by apply classList_remove_idemp.
    rewrite He. case_bool_decide; simpl; eauto. }
  unfold querySelectorAll.
  rewrite (querySelectorAll_from_one 0 el _ _ _ e') by
    (done || apply classList_add_shows).
  done.
Qed.

Lemma highlightElement_missing (sel name : string) (w : widget) :
  querySelector sel (page w) = None →
  highlightElement sel name w = console_log ("Element not found: " +:+ sel) w.
Proof. intros Hq. unfold highlightElement. by rewrite Hq. Qed.

(** Removing the class from the only element that shows it. *)
Lemma remove_only_highlight (c : string) (doc : list Element) (el : nat) :
  querySelectorAll ("." +:+ c) doc = [el] →
  querySelectorAll ("." +:+ c) (alter (classList_remove c) el doc) = [].
Proof.
  intros Hq. apply querySelectorAll_from_none, Forall_lookup_2. intros j e'.
  destruct (decide (el = j)) as [->|Hne].
  - rewrite list_lookup_alter_eq. destruct (doc !! j); simpl; [|done].
    intros [= <-]. apply classList_remove_hides.
  - rewrite list_lookup_alter_ne by done. intros Hl.
    destruct (matches ("." +:+ c) e') eqn:Hm; [|done].
    assert (j ∈ querySelectorAll ("." +:+ c) doc) as Hj.
    { apply querySelectorAll_from_elem. exists e'. rewrite Nat.sub_0_r.
      repeat split; [lia|done|done]. }
    rewrite Hq in Hj. apply list_elem_of_singleton in Hj. congruence.
Qed.

(** Selectors other than the one of the highlight class do not see that
    class come and go. *)
Lemma matches_remove (sel : string) (e : Element) :
  plain sel →
  matches sel (classList_remove highlight_class e) = matches sel e.
Proof.
  intros Hsel. destruct sel as [|c name]; [done|]. unfold matches.
  destruct (Ascii.eqb c "#") eqn:Hc1; [apply Ascii.eqb_eq in Hc1 as ->; done|].
  destruct (Ascii.eqb c ".") eqn:Hc2.
  - apply Ascii.eqb_eq in Hc2 as ->. simpl. apply bool_decide_ext.
    rewrite list_elem_of_filter. split; [tauto|]. intros Hin. split; [|done].
    intros ->. by apply Hsel.
  - destruct c as [[] [] [] [] [] [] [] []]; try done.
Qed.

Lemma matches_add (sel : string) (e : Element) :
  plain sel →
  matches sel (classList_add highlight_class e) = matches sel e.
Proof.
  intros Hsel. unfold classList_add. case_bool_decide; [done|].
  destruct sel as [|c name]; [done|]. unfold matches.
  destruct (Ascii.eqb c "#") eqn:Hc1; [apply Ascii.eqb_eq in Hc1 as ->; done|].
  destruct (Ascii.eqb c ".") eqn:Hc2.
  - apply Ascii.eqb_eq in Hc2 as ->. simpl. apply bool_decide_ext.
    rewrite elem_of_app, list_elem_of_singleton. split; [|tauto].
    intros [?| ->]; [done|]. by destruct Hsel.
  - destruct c as [[] [] [] [] [] [] [] []]; try done.
Qed.

Lemma querySelector_from_alter (i j : nat) (sel : string) (f : Element → Element)
    (doc : list Element) :
  (∀ e, matches sel (f e) = matches sel e) →
  querySelector_from i sel (alter f j doc) = querySelector_from i sel doc.
Proof.
  intros Hf. revert i j. induction doc as [|x doc IH]; intros i j; [done|].
  destruct j as [|j].
  - rewrite alter_head. simpl. by rewrite Hf.
  - rewrite alter_tail. simpl. by rewrite IH.
Qed.

Lemma querySelector_highlightElement (sel sel' name : string) (w : widget) :
  plain sel' →
  querySelector sel' (page (highlightElement sel name w)) = querySelector sel' (page w).
Proof.
  intros Hsel. unfold highlightElement.
  destruct (querySelector sel (page w)) as [el|]; [|done]. simpl.
  unfold querySelector.
  rewrite querySelector_from_alter by (intros; by apply matches_add).
  generalize (querySelectorAll ("." +:+ highlight_class) (page w)).
  intros L. generalize (page w). induction L as [|k L IH]; intros doc; [done|].
  simpl. rewrite IH. apply querySelector_from_alter. intros. by apply matches_remove.
Qed.

Lemma querySelector_remove (sel : string) (j : nat) (doc : list Element) :
  plain sel →
  querySelector sel (alter (classList_remove highlight_class) j doc) = querySelector sel doc.
Proof.
  intros Hsel. apply querySelector_from_alter. intros. by apply matches_remove.
Qed.

Lemma querySelector_truthy (sel : string) (doc : list Element) (el : nat) :
  querySelector sel doc = Some el → Js.truthy sel = true.
Proof.
  intros (e & _ & Hm)%querySelector_Some. by destruct sel.
Qed.

(** What is highlighted after the class is removed from one element. *)
Lemma highlighted_remove (j x : nat) (doc : list Element) :
  x ∈ querySelectorAll ("." +:+ highlight_class)
        (alter (classList_remove highlight_class) j doc) ↔
  x ∈ querySelectorAll ("." +:+ highlight_class) doc ∧ x ≠ j.
Proof.
  unfold querySelectorAll. rewrite !querySelectorAll_from_elem, !Nat.sub_0_r. split.
  - intros (e & _ & Hl & Hm). destruct (decide (j = x)) as [->|Hne].
    + rewrite list_lookup_alter_eq in Hl. destruct (doc !! x) as [e0|]; [|done].
      injection Hl as <-. by rewrite classList_remove_hides in Hm.
    + rewrite list_lookup_alter_ne in Hl by done. split; [|done].
      exists e. repeat split; [lia|done|done].
  - intros [(e & _ & Hl & Hm) Hne]. exists e.
    rewrite list_lookup_alter_ne by done. repeat split; [lia|done|done].
Qed.

Lemma highlighted_remove_nil (j : nat) (doc : list Element) :
  querySelectorAll ("." +:+ highlight_class) doc = [] →
  querySelectorAll ("." +:+ highlight_class)
    (alter (classList_remove highlight_class) j doc) = [].
Proof.
  intros Hd. apply elem_of_nil_inv. intros x [Hx _]%highlighted_remove.
  rewrite Hd in Hx. by apply elem_of_nil in Hx.
Qed.

Lemma unhighlight_le (el : nat) (w : widget) :
  length (highlighted (run_callback (unhighlight el) w)) ≤ length (highlighted w).
Proof. apply querySelectorAll_from_remove. Qed.

Lemma clearHighlight_le (seen : option string) (w : widget) :
  length (highlighted (clearHighlight seen w)) ≤ length (highlighted w).
Proof.
  unfold clearHighlight. destruct seen as [sel|]; [|done].
  destruct (Js.truthy sel); [|done].
  destruct (querySelector sel (page w)); [|done].
  apply querySelectorAll_from_remove.
Qed.

Lemma highlightElement_le (sel name : string) (w : widget) :
  length (highlighted w) ≤ 1 → length (highlighted (highlightElement sel name w)) ≤ 1.
Proof.
  intros Hw. destruct (querySelector sel (page w)) as [el|] eqn:Hq.
  - by destruct (highlightElement_found sel name w el Hq) as [-> _].
  - by rewrite highlightElement_missing.
Qed.

(** *** Renders and the effect *)

Lemma last_snoc_effects (l : list (option string)) (x : option string) :
  last (l ++ [x]) = Some x.
Proof. apply last_snoc. Qed.

Lemma commit_settled (w : widget) : settled w → commit w = w.
Proof.
  unfold settled, commit. intros ->. by rewrite bool_decide_eq_true_2.
Qed.

Lemma clearHighlight_effects (seen : option string) (w : widget) :
  effects (clearHighlight seen w) = effects w.
Proof.
  unfold clearHighlight. destruct seen as [sel|]; [|done].
  destruct (Js.truthy sel); [|done]. by destruct (querySelector sel (page w)).
Qed.

(** What [clearHighlight] leaves of [currentHighlight]. *)
Lemma clearHighlight_current (seen : option string) (w : widget) :
  currentHighlight (clearHighlight seen w) =
    if Js.truthy_opt seen then None else currentHighlight w.
Proof.
  unfold clearHighlight. destruct seen as [sel|]; [|done]. simpl.
  destruct (Js.truthy sel); [|done]. by destruct (querySelector sel (page w)).
Qed.

(** One render: the latest run of the effect is the one of this render,
    and [currentHighlight] is kept or reset. *)
Lemma commit_spec (w : widget) :
  last (effects (commit w)) = Some (currentHighlight w) ∧
  (currentHighlight (commit w) = currentHighlight w ∨ currentHighlight (commit w) = None).
Proof.
  unfold commit. destruct (last (effects w)) as [seen|] eqn:Hl.
  - case_bool_decide as Hs; [subst; by split; [|left]|].
    unfold effect_run, effect_cleanup. rewrite Hl. simpl.
    rewrite last_snoc, clearHighlight_current. split; [done|].
    destruct (Js.truthy_opt seen); [by right | by left].
  - unfold effect_run. simpl. rewrite last_snoc. split; [done | by left].
Qed.

(** Two rounds of rendering leave no render due, whatever the state: the
    definition of [settle] is complete. *)
Lemma settle_settled (w : widget) : settled (settle w).
Proof.
  unfold settle. destruct (commit_spec w) as [Hl [Hc|Hc]].
  - rewrite commit_settled; unfold settled; by rewrite Hl, Hc.
  - destruct (commit_spec (commit w)) as [Hl2 Hc2]. unfold settled.
    rewrite Hl2, Hc. destruct Hc2 as [->| ->]; by rewrite ?Hc.
Qed.

Lemma commit_settle (w : widget) : commit (settle w) = settle w.
Proof. apply commit_settled, settle_settled. Qed.

Lemma settle_id (w : widget) : settled w → settle w = w.
Proof. intros Hw. unfold settle. by rewrite !(commit_settled w Hw). Qed.

Lemma commit_due (w : widget) (seen : option string) :
  last (effects w) = Some seen → seen ≠ currentHighlight w →
  commit w = effect_run (currentHighlight w) (effect_cleanup w).
Proof.
  intros Hl Hne. unfold commit. rewrite Hl. by rewrite bool_decide_eq_false_2.
Qed.

(** A render changes nothing but the page, [currentHighlight], [vapi] and
    the record of the effect. *)
Lemma commit_frame (w : widget) :
  timers (commit w) = timers w ∧ now (commit w) = now w ∧
  transcript (commit w) = transcript w ∧ isConnected (commit w) = isConnected w ∧
  isSpeaking (commit w) = isSpeaking w ∧ console (commit w) = console w.
Proof.
  unfold commit, effect_run, effect_cleanup, clearHighlight.
  repeat case_match; done.
Qed.

Lemma settle_frame (w : widget) :
  timers (settle w) = timers w ∧ now (settle w) = now w ∧
  transcript (settle w) = transcript w ∧ isConnected (settle w) = isConnected w ∧
  isSpeaking (settle w) = isSpeaking w ∧ console (settle w) = console w.
Proof.
  unfold settle.
  destruct (commit_frame (commit w)) as (-> & -> & -> & -> & -> & ->).
  apply commit_frame.
Qed.

Lemma commit_le (w : widget) : length (highlighted (commit w)) ≤ length (highlighted w).
Proof.
  unfold commit. destruct (last (effects w)) as [seen|] eqn:Hl; [|done].
  case_bool_decide; [done|]. unfold effect_cleanup. rewrite Hl.
  apply (clearHighlight_le seen w).
Qed.

Lemma settle_le (w : widget) : length (highlighted (settle w)) ≤ length (highlighted w).
Proof. unfold settle. etrans; [apply commit_le | apply commit_le]. Qed.

(** The effect has run once the widget is mounted, and [vapi] holds the
    instance of its latest run. *)
Lemma commit_vapi (w : widget) :
  (effects w = [] ∨ vapi w = Some (length (effects w) - 1)) →
  effects (commit w) ≠ [] ∧ vapi (commit w) = Some (length (effects (commit w)) - 1).
Proof.
  assert (∀ c u, effects (effect_run c u) ≠ [] ∧
                 vapi (effect_run c u) = Some (length (effects (effect_run c u)) - 1)) as Hrun.
  { intros c u. unfold effect_run. simpl. split; [by destruct (effects u)|].
    rewrite length_app. simpl. f_equal. lia. }
  intros Hw. unfold commit. destruct (last (effects w)) as [seen|] eqn:Hl; [|apply Hrun].
  case_bool_decide; [|apply Hrun].
  destruct Hw as [Hw|Hw]; [by rewrite Hw in Hl|]. split; [|done].
  intros He. by rewrite He in Hl.
Qed.

Lemma settle_vapi (w : widget) :
  (effects w = [] ∨ vapi w = Some (length (effects w) - 1)) →
  effects (settle w) ≠ [] ∧ vapi (settle w) = Some (length (effects (settle w)) - 1).
Proof.
  intros Hw. unfold settle. apply commit_vapi. right. by apply commit_vapi.
Qed.

(** No render forgets a run of the effect. *)
Lemma commit_effects (w : widget) : effects w `prefix_of` effects (commit w).
Proof.
  unfold commit, effect_run, effect_cleanup.
  destruct (last (effects w)) as [seen|]; simpl; [|by apply prefix_app_r].
  case_bool_decide; [done|]. simpl. rewrite clearHighlight_effects. by apply prefix_app_r.
Qed.

Lemma settle_effects (w : widget) : effects w `prefix_of` effects (settle w).
Proof. unfold settle. etrans; apply commit_effects. Qed.

Lemma highlighted_clearHighlight (seen : option string) (w : widget) (x : nat) :
  x ∈ highlighted (clearHighlight seen w) →
  x ∈ highlighted w ∧ ∀ s, seen = Some s → querySelector s (page w) ≠ Some x.
Proof.
  unfold clearHighlight, highlighted. destruct seen as [sel|]; [|by intros ?; split].
  destruct (Js.truthy sel) eqn:Ht.
  - destruct (querySelector sel (page w)) as [el|] eqn:Hq; simpl.
    + intros [Hx Hne]%highlighted_remove. split; [done|]. intros s [= <-]. congruence.
    + intros Hx. split; [done|]. intros s [= <-]. congruence.
  - intros Hx. split; [done|]. intros s [= <-] Hq.
    apply querySelector_truthy in Hq. congruence.
Qed.

Lemma querySelector_clearHighlight (seen : option string) (w : widget) (sel : string) :
  plain sel →
  querySelector sel (page (clearHighlight seen w)) = querySelector sel (page w).
Proof.
  intros Hsel. unfold clearHighlight. destruct seen as [s|]; [|done].
  destruct (Js.truthy s); [|done].
  destruct (querySelector s (page w)); simpl; [|done]. by apply querySelector_remove.
Qed.

Lemma commit_due_fields (w : widget) (seen : option string) :
  last (effects w) = Some seen → seen ≠ currentHighlight w →
  page (commit w) = page (clearHighlight seen w) ∧
  currentHighlight (commit w) = (if Js.truthy_opt seen then None else currentHighlight w) ∧
  last (effects (commit w)) = Some (currentHighlight w).
Proof.
  intros Hl Hne. rewrite (commit_due w seen Hl Hne).
  unfold effect_run, effect_cleanup. rewrite Hl. simpl.
  by rewrite last_snoc, clearHighlight_current.
Qed.

(** After the renders, [currentHighlight] says what is highlighted. *)
Lemma settle_shown (w : widget) (seen : option string) :
  last (effects w) = Some seen → shown_before_render w seen → current_shown (settle w).
Proof.
  unfold shown_before_render. intros Hl Hw.
  destruct (decide (seen = currentHighlight w)) as [Heq|Hne].
  { rewrite settle_id by (unfold settled; by rewrite Hl, Heq). unfold current_shown.
    destruct (currentHighlight w) as [s2|]; [done|].
    apply elem_of_nil_inv. intros x Hx. by destruct (Hw x Hx) as (s & ? & _); subst. }
  unfold settle.
  destruct (commit_due_fields w seen Hl Hne) as (Hp1 & Hc1 & Hl1).
  set (w1 := commit w) in *.
  destruct (currentHighlight w) as [s2|] eqn:Hcw.
  - destruct Hw as (Hplain & el & Hq & Hh).
    destruct (Js.truthy_opt seen) eqn:Hts.
    + assert (Some s2 ≠ currentHighlight w1) as Hne1 by (by rewrite Hc1).
      destruct (commit_due_fields w1 (Some s2) Hl1 Hne1) as (Hp2 & Hc2 & Hl2).
      unfold current_shown. rewrite Hc2. simpl.
      rewrite (querySelector_truthy _ _ _ Hq).
      apply elem_of_nil_inv. intros x Hx. unfold highlighted in Hx. rewrite Hp2 in Hx.
      apply highlighted_clearHighlight in Hx as [Hx Hno].
      unfold highlighted in Hx. rewrite Hp1 in Hx.
      apply highlighted_clearHighlight in Hx as [Hx _].
      rewrite Hh in Hx. apply list_elem_of_singleton in Hx as ->.
      apply (Hno s2 eq_refl). rewrite Hp1, querySelector_clearHighlight by done. done.
    + rewrite commit_settled by (unfold settled; by rewrite Hl1, Hc1).
      unfold current_shown. rewrite Hc1. split; [done|]. exists el.
      unfold highlighted. rewrite Hp1.
      assert (clearHighlight seen w = w) as ->; [|done].
      unfold clearHighlight. destruct seen as [s|]; [|done]. simpl in Hts. by rewrite Hts.
  - assert (currentHighlight w1 = None) as Hc1' by (rewrite Hc1; by destruct (Js.truthy_opt seen)).
    rewrite commit_settled by (unfold settled; by rewrite Hl1, Hc1').
    unfold current_shown. rewrite Hc1'.
    apply elem_of_nil_inv. intros x Hx. unfold highlighted in Hx. rewrite Hp1 in Hx.
    apply highlighted_clearHighlight in Hx as [Hx Hno].
    destruct (Hw x Hx) as (s & -> & Hq). by apply (Hno s).
Qed.

(** *** What holds between two events *)

Lemma map_selectors_plain : Forall (λ e, plain e.2) UI_ELEMENT_MAP.
Proof. unfold UI_ELEMENT_MAP. repeat constructor; discriminate. Qed.

Lemma parseForUIElements_plain (text : string) (ui : UIElement) :
  parseForUIElements text = Some ui → plain (selector ui).
Proof.
  destruct ui as [name sel]. unfold parseForUIElements. destruct (negb _); [done|].
  intros (before & after & Hmap & _)%scan_Some.
  pose proof map_selectors_plain as Hall. rewrite Hmap in Hall.
  apply Forall_app in Hall as [_ Hall]. by apply Forall_cons in Hall as [Hall _].
Qed.

Lemma take_due_Forall (P : timer → Prop) (d : N) (ts rest : list timer) (t : timer) :
  take_due d ts = Some (t, rest) → Forall P ts → P t ∧ Forall P rest.
Proof.
  revert rest. induction ts as [|u ts IH]; intros rest; simpl; [done|].
  destruct (deadline u =? d)%N.
  - intros [= <- <-] [Hu Hts]%Forall_cons. done.
  - destruct (take_due d ts) as [[t' rest']|]; [|done].
    intros [= <- <-] [Hu Hts]%Forall_cons.
    destruct (IH rest' eq_refl Hts) as [Ht Hr]. split; [done | by constructor].
Qed.

Lemma clearHighlight_timers (seen : option string) (w : widget) :
  timers (clearHighlight seen w) = timers w.
Proof.
  unfold clearHighlight. destruct seen as [sel|]; [|done].
  destruct (Js.truthy sel); [|done]. by destruct (querySelector sel (page w)).
Qed.

Lemma clearHighlight_vapi (seen : option string) (w : widget) :
  vapi (clearHighlight seen w) = vapi w.
Proof.
  unfold clearHighlight. destruct seen as [sel|]; [|done].
  destruct (Js.truthy sel); [|done]. by destruct (querySelector sel (page w)).
Qed.

Lemma highlightElement_effects (sel name : string) (w : widget) :
  effects (highlightElement sel name w) = effects w ∧
  vapi (highlightElement sel name w) = vapi w.
Proof. unfold highlightElement. by destruct (querySelector sel (page w)). Qed.

(** No handler touches [vapi] or the record of the effect. *)
Lemma handle_effects (w : widget) (ev : event) :
  effects (handle ev w) = effects w ∧ vapi (handle ev w) = vapi w.
Proof.
  destruct ev as [|i| | |mtype role text|err| | |ms|]; simpl; try done.
  - destruct (effects w !! i) as [seen|]; [|done]. unfold onCallEnd.
    by rewrite clearHighlight_effects, clearHighlight_vapi.
  - unfold onMessage. repeat case_bool_decide; try done.
    by destruct (parseForUIElements text).
  - destruct (isConnected w); [done|]. unfold startCall.
    by destruct (vapi w) eqn:Hv.
  - destruct (isConnected w); [|done]. unfold endCall.
    destruct (vapi w) eqn:Hv; [|done]. simpl.
    by rewrite clearHighlight_effects, clearHighlight_vapi.
  - by destruct (earliest (timers w)).
  - destruct (earliest (timers w)) as [d|]; [|done].
    destruct (d <=? now w)%N; [|done].
    destruct (take_due d (timers w)) as [[t rest]|]; [|done].
    destruct (todo t) as [sel name|el]; simpl; [|done].
    apply (highlightElement_effects sel name (set_timers rest w)).
Qed.

Lemma handle_plain_pending (w : widget) (ev : event) :
  plain_pending w → plain_pending (handle ev w).
Proof.
  unfold plain_pending. intros Hw.
  destruct ev as [|i| | |mtype role text|err| | |ms|]; simpl; try done.
  - destruct (effects w !! i) as [seen|]; [|done]. unfold onCallEnd.
    by rewrite clearHighlight_timers.
  - unfold onMessage. repeat case_bool_decide; try done.
    destruct (parseForUIElements text) as [ui|] eqn:Hp; [|done]. simpl.
    apply Forall_app. split; [done|]. repeat constructor. simpl.
    by apply (parseForUIElements_plain text).
  - destruct (isConnected w); [done|]. unfold startCall. by destruct (vapi w).
  - destruct (isConnected w); [|done]. unfold endCall.
    destruct (vapi w); [|done]. simpl. by rewrite clearHighlight_timers.
  - by destruct (earliest (timers w)).
  - destruct (earliest (timers w)) as [d|]; [|done].
    destruct (d <=? now w)%N; [|done].
    destruct (take_due d (timers w)) as [[t rest]|] eqn:Hd; [|done].
    destruct (take_due_Forall _ _ _ _ _ Hd Hw) as [Ht Hrest].
    destruct (todo t) as [sel name|el]; simpl; [|done].
    unfold highlightElement. simpl.
    destruct (querySelector sel (page w)); simpl; [|done].
    apply Forall_app. split; [done|]. by repeat constructor.
Qed.

Lemma shown_frame (w w' : widget) :
  page w' = page w → currentHighlight w' = currentHighlight w →
  current_shown w → shown_before_render w' (currentHighlight w).
Proof.
  unfold current_shown, shown_before_render, highlighted. intros -> ->.
  destruct (currentHighlight w) as [sel|]; [done|].
  intros -> x Hx. by apply elem_of_nil in Hx.
Qed.

Lemma shown_cleared (w w' : widget) :
  currentHighlight w' = None →
  (∀ x, x ∈ highlighted w' → x ∈ highlighted w) →
  (∀ s, plain s → querySelector s (page w') = querySelector s (page w)) →
  current_shown w → shown_before_render w' (currentHighlight w).
Proof.
  unfold current_shown, shown_before_render. intros -> Hsub Hq Hw x Hx.
  apply Hsub in Hx. destruct (currentHighlight w) as [sel|].
  - destruct Hw as (Hplain & el & Hel & Hh). rewrite Hh in Hx.
    apply list_elem_of_singleton in Hx as ->. exists sel. by rewrite Hq.
  - rewrite Hw in Hx. by apply elem_of_nil in Hx.
Qed.

Lemma shown_clearHighlight (seen : option string) (w u : widget) :
  page u = page w → currentHighlight u = currentHighlight w →
  current_shown w → shown_before_render (clearHighlight seen u) (currentHighlight w).
Proof.
  intros Hp Hc Hw. destruct (Js.truthy_opt seen) eqn:Ht.
  - apply shown_cleared; [| | |done].
    + by rewrite clearHighlight_current, Ht.
    + intros x [Hx _]%highlighted_clearHighlight. unfold highlighted in *. by rewrite <- Hp.
    + intros s Hs. by rewrite querySelector_clearHighlight, Hp.
  - assert (clearHighlight seen u = u) as ->.
    { unfold clearHighlight. destruct seen as [s|]; [|done]. simpl in Ht. by rewrite Ht. }
    by apply shown_frame.
Qed.

(** Every handler leaves the widget as [settle_shown] wants it. *)
Lemma handle_shown (w : widget) (ev : event) :
  current_shown w → plain_pending w →
  shown_before_render (handle ev w) (currentHighlight w).
Proof.
  intros Hw Hpl.
  destruct ev as [|i| | |mtype role text|err| | |ms|]; simpl;
    try (by apply shown_frame).
  - destruct (effects w !! i) as [seen|]; [|by apply shown_frame].
    unfold onCallEnd. by apply shown_clearHighlight.
  - apply shown_frame; [| |done]; unfold onMessage; repeat case_bool_decide; try done;
      by destruct (parseForUIElements text).
  - destruct (isConnected w); [by apply shown_frame|]. unfold startCall.
    destruct (vapi w); by apply shown_frame.
  - destruct (isConnected w); [|by apply shown_frame]. unfold endCall.
    destruct (vapi w); [|by apply shown_frame].
    pose proof (shown_clearHighlight (currentHighlight w) w w eq_refl eq_refl Hw) as H.
    unfold shown_before_render in *. simpl.
    by destruct (currentHighlight (clearHighlight (currentHighlight w) w)).
  - destruct (earliest (timers w)); by apply shown_frame.
  - destruct (earliest (timers w)) as [d|]; [|by apply shown_frame].
    destruct (d <=? now w)%N; [|by apply shown_frame].
    destruct (take_due d (timers w)) as [[t rest]|] eqn:Hd; [|by apply shown_frame].
    destruct (take_due_Forall _ _ _ _ _ Hd Hpl) as [Ht _].
    destruct (todo t) as [sel name|el]; simpl.
    + destruct (querySelector sel (page w)) as [e|] eqn:Hq.
      * destruct (highlightElement_found sel name (set_timers rest w) e Hq) as (Hh & Hc & _).
        unfold shown_before_render. rewrite Hc. split; [done|]. exists e. split; [|done].
        by rewrite querySelector_highlightElement.
      * rewrite highlightElement_missing by done. by apply shown_frame.
    + apply shown_cleared; [done| | |done].
      * by intros x [Hx _]%highlighted_remove.
      * intros s Hs. simpl. by apply querySelector_remove.
Qed.

(** What holds between two events is kept by every event. *)
Lemma step_coherent (w : widget) (ev : event) : coherent w → coherent (step w ev).
Proof.
  intros (Hs & Hsh & Hpl & Hne & Hv). unfold step.
  destruct (handle_effects w ev) as [He Hva].
  repeat apply conj.
  - apply settle_settled.
  - apply (settle_shown _ (currentHighlight w)); [by rewrite He | by apply handle_shown].
  - unfold plain_pending. destruct (settle_frame (handle ev w)) as (-> & _).
    by apply handle_plain_pending.
  - apply settle_vapi. right. by rewrite He, Hva.
  - apply settle_vapi. right. by rewrite He, Hva.
Qed.

Lemma run_coherent (evs : list event) (w : widget) : coherent w → coherent (run evs w).
Proof.
  revert w. induction evs as [|ev evs IH]; intros w Hw; [done|].
  by apply IH, step_coherent.
Qed.

Lemma mount_coherent (doc : list Element) :
  querySelectorAll ("." +:+ highlight_class) doc = [] → coherent (mount doc).
Proof.
  intros Hd. unfold coherent, settled, current_shown, plain_pending, vapi_current.
  simpl. by repeat apply conj.
Qed.

(** An event whose handler keeps [currentHighlight] causes no run of the
    effect. *)
Lemma step_frame (w : widget) (ev : event) :
  settled w → currentHighlight (handle ev w) = currentHighlight w →
  step w ev = handle ev w.
Proof.
  intros Hw Hc. unfold step. apply settle_id. unfold settled.
  destruct (handle_effects w ev) as [-> _]. by rewrite Hc.
Qed.

Lemma settle_current_None (w : widget) :
  currentHighlight w = None → currentHighlight (settle w) = None.
Proof.
  intros Hw. unfold settle.
  destruct (commit_spec w) as [_ [H1|H1]]; rewrite ?Hw in H1;
    destruct (commit_spec (commit w)) as [_ [H2|H2]]; congruence.
Qed.

(** No step of the widget leaves two elements highlighted. *)
Lemma step_at_most_one (w : widget) (ev : event) :
  length (highlighted w) ≤ 1 → length (highlighted (step w ev)) ≤ 1.
Proof.
  intros Hw. unfold step. etrans; [apply settle_le|].
  destruct ev as [|i| | |mtype role text|err| | |ms|]; simpl; try done.
  - destruct (effects w !! i) as [seen|]; [|done]. unfold onCallEnd.
    etrans; [apply clearHighlight_le | done].
  - unfold onMessage. repeat case_bool_decide; try done.
    by destruct (parseForUIElements text).
  - destruct (isConnected w); [done|]. unfold startCall. by destruct (vapi w).
  - destruct (isConnected w); [|done]. unfold endCall. destruct (vapi w); [|done].
    etrans; [apply (clearHighlight_le (currentHighlight w) w) | done].
  - by destruct (earliest (timers w)).
  - destruct (earliest (timers w)) as [d|]; [|done].
    destruct (d <=? now w)%N; [|done].
    destruct (take_due d (timers w)) as [[t rest]|]; [|done].
    destruct (todo t) as [sel name | el]; simpl.
    + by apply highlightElement_le.
    + etrans; [apply (unhighlight_le el (set_timers rest w)) | done].
Qed.

Lemma run_at_most_one (evs : list event) (w : widget) :
  length (highlighted w) ≤ 1 → length (highlighted (run evs w)) ≤ 1.
Proof.
  revert w. induction evs as [|ev evs IH]; intros w Hw; simpl; [done|].
  by apply IH, step_at_most_one.
Qed.

End WidgetFacts.


(** ** Claims on the highlight correlator *)

Section HighlightClaims.
Import VapiWidget WidgetRuns.

(** The three steps from an utterance with a hint to its highlight, in a
    widget where nothing is pending. *)
Lemma hint_is_shown (text : string) (ui : UIElement) (w : widget) (el : nat) :
  quiet w → parseForUIElements text = Some ui →
  querySelector (selector ui) (page w) = Some el →
  ∃ shown,
    run [message "transcript" "assistant" text; elapse 500; timer_fires] w = shown ∧
    highlighted shown = [el] ∧ currentHighlight shown = Some (selector ui) ∧
    now shown = (now w + 500)%N ∧
    timers shown = [ {| deadline := (now w + 500 + 5000)%N; todo := unhighlight el |} ] ∧
    querySelector (selector ui) (page shown) = Some el ∧
    coherent shown ∧
    effects shown = effects w ++ [Some (selector ui)] ∧
    vapi shown = Some (length (effects w)) ∧
    vapi_calls shown =
      vapi_calls w ++ [vapi_stop (length (effects w) - 1); vapi_new (length (effects w))].
Proof.
  intros ((Hs & Hsh & Hpl & Hv) & Hc & Ht) Hp Hq.
  pose proof (parseForUIElements_plain text ui Hp) as Hplain.
  change (run [message "transcript" "assistant" text; elapse 500; timer_fires] w)
    with (step (step (step w (message "transcript" "assistant" text)) (elapse 500))
            timer_fires).
  set (w1 := step w (message "transcript" "assistant" text)).
  assert (w1 = setTimeout (highlight_later (selector ui) (elementName ui)) 500
                 (setTranscript (transcript w ++ [("assistant", text)]) w)) as Hw1.
  { unfold w1. rewrite step_frame; [|done|]; simpl; unfold onMessage; simpl; by rewrite Hp. }
  assert (coherent w1) as Hco1 by (by apply step_coherent).
  clearbody w1.
  set (w2 := step w1 (elapse 500)).
  assert (w2 = set_now (now w + 500)%N w1) as Hw2.
  { unfold w2. rewrite step_frame.
    - rewrite Hw1. simpl. rewrite Ht. simpl. f_equal. lia.
    - apply Hco1.
    - simpl. by destruct (earliest (timers w1)). }
  assert (coherent w2) as Hco2 by (by apply step_coherent).
  clearbody w2.
  pose proof (step_coherent w2 timer_fires Hco2) as Hco3.
  assert (handle timer_fires w2 =
          highlightElement (selector ui) (elementName ui) (set_timers [] w2)) as Hh.
  { rewrite Hw2, Hw1. simpl. rewrite Ht. simpl. rewrite N.leb_refl, N.eqb_refl. done. }
  assert (page w2 = page w ∧ now w2 = (now w + 500)%N ∧ currentHighlight w2 = None ∧
          effects w2 = effects w ∧ vapi_calls w2 = vapi_calls w)
    as (Hpg & Hnow & Hc2 & He2 & Hvc2) by (by rewrite Hw2, Hw1).
  assert (querySelector (selector ui) (page (set_timers [] w2)) = Some el) as Hq2
    by (simpl; by rewrite Hpg).
  destruct (highlightElement_found _ (elementName ui) _ _ Hq2) as (Hhl & Hcur & Htm).
  assert (now (highlightElement (selector ui) (elementName ui) (set_timers [] w2)) =
          (now w + 500)%N) as Hnow3.
  { unfold highlightElement. rewrite Hq2. simpl. done. }
  pose proof (querySelector_highlightElement (selector ui) (selector ui) (elementName ui)
                (set_timers [] w2) Hplain) as Hq3.
  rewrite Hq2 in Hq3. simpl in Htm. rewrite Hnow in Htm.
  assert (effects (highlightElement (selector ui) (elementName ui) (set_timers [] w2)) =
            effects w ∧
          vapi_calls (highlightElement (selector ui) (elementName ui) (set_timers [] w2)) =
            vapi_calls w) as (Heh & Hvh).
  { unfold highlightElement. rewrite Hq2. simpl. by rewrite He2, Hvc2. }
  assert (last (effects (handle timer_fires w2)) = Some None) as Hlast.
  { destruct (handle_effects w2 timer_fires) as [-> _].
    destruct Hco2 as (Hs2 & _). unfold settled in Hs2. by rewrite Hs2, Hc2. }
  unfold step at 1 in Hco3. unfold step at 1.
  rewrite <- Hh in Hhl, Hcur, Htm, Hnow3, Hq3, Heh, Hvh.
  set (h := handle timer_fires w2) in *. clearbody h.
  assert (settle h = effect_run (Some (selector ui)) (effect_cleanup h)) as Hstep.
  { unfold settle. rewrite (commit_due _ None Hlast) by (by rewrite Hcur).
    rewrite Hcur. apply commit_settled. unfold settled, effect_run, effect_cleanup.
    rewrite Hlast. simpl. by rewrite last_snoc, Hcur. }
  eexists. split; [reflexivity|].
  assert (page (settle h) = page h ∧ currentHighlight (settle h) = currentHighlight h ∧
          timers (settle h) = timers h ∧ now (settle h) = now h ∧
          effects (settle h) = effects h ++ [Some (selector ui)] ∧
          vapi (settle h) = Some (length (effects h)) ∧
          vapi_calls (settle h) =
            vapi_calls h ++ [vapi_stop (length (effects h) - 1); vapi_new (length (effects h))])
    as (Hp3 & Hc3 & Ht3 & Hn3 & He3 & Hv3 & Hvc3).
  { rewrite Hstep. unfold effect_run, effect_cleanup. rewrite Hlast. simpl.
    by rewrite <- app_assoc. }
  unfold highlighted in *. by rewrite Hp3, Hc3, Ht3, Hn3, He3, Hv3, Hvc3, Heh, Hvh.
Qed.








(** The part of C8 that holds: whatever happens, at most one element of a
    page that starts without a highlight is highlighted, and it is the one
    that [currentHighlight] locates. *)
Lemma at_most_one_highlight (evs : list event) (doc : list Element) :
  highlighted (mount doc) = [] →
  length (highlighted (run evs (mount doc))) ≤ 1 ∧ current_shown (run evs (mount doc)).
Proof.
  intros Hd. split.
  - apply run_at_most_one. rewrite Hd. simpl. lia.
  - by apply run_coherent, mount_coherent.
Qed.

(** C8 fails, twice.  For the call to end cleanly the [call-end] handler
    calls [clearHighlight], but the one it holds is that of the render in
    which the effect made the instance.  Applying a highlight changes
    [currentHighlight], so the effect is cleaned up and run again: the
    instance that carries the call is stopped and replaced, and when its
    [call-end] arrives the handler still sees no current highlight and
    leaves the dashboard link highlighted.  And a second hint does not
    replace the first highlight: the clean-up of the effect resets
    [currentHighlight], the next render cleans up again with the
    [clearHighlight] that sees the new highlight, and the profile link,
    highlighted at 2000 ms, is bare again in the same instant. *)
Theorem highlight_survives_call_end :
  vapi_calls (run guided_call (mount navigation)) =
    [vapi_new 0; vapi_start 0; vapi_stop 0; vapi_new 1] ∧
  isConnected (run guided_call (mount navigation)) = true ∧
  highlighted (run guided_call (mount navigation)) = [0] ∧
  isConnected (run (guided_call ++ [call_end 0]) (mount navigation)) = false ∧
  highlighted (run (guided_call ++ [call_end 0]) (mount navigation)) = [0] ∧
  currentHighlight (run (guided_call ++ [call_end 0]) (mount navigation)) =
    Some "#dashboard-link" ∧
  highlighted (run (take 6 two_hints) (mount navigation)) = [0] ∧
  highlighted (run two_hints (mount navigation)) = [] ∧
  currentHighlight (run two_hints (mount navigation)) = None ∧
  effects (run two_hints (mount navigation)) =
    [None; Some "#dashboard-link"; Some "#profile-link"; None].
Proof. by vm_compute. Qed.

End HighlightClaims.

(** ** Effects and what they keep *)

Section Effects.
Import Browser.
Context {H : Type}.

Lemma preserves_ret {A} (P : env → Prop) (a : A) : preserves P (mret a : M H A).
Proof. by intros w. Qed.

Lemma preserves_bind {A B} (P : env → Prop) (m : M H A) (f : A → M H B) :
  preserves P m → (∀ a, preserves P (f a)) → preserves P (m ≫= f).
Proof.
  intros Hm Hf w Hw. unfold mbind, M_bind, bind.
  specialize (Hm w Hw). destruct (m w) as [[a|err] w']; simpl in *; [|done].
  by apply Hf.
Qed.

Lemma preserves_tryCatch (P : env → Prop) (m : M H unit) :
  preserves P m → preserves P (tryCatch m).
Proof. intros Hm w Hw. by apply Hm. Qed.

Lemma preserves_gets {A} (P : env → Prop) (f : H → A) : preserves P (gets f).
Proof. by intros w. Qed.

Lemma preserves_gets_env {A} (P : env → Prop) (f : env → A) :
  preserves P (gets_env f : M H A).
Proof. by intros w. Qed.

Lemma preserves_modify (P : env → Prop) (f : H → H) : preserves P (modify f).
Proof. by intros w. Qed.

Lemma preserves_throw {A} (P : env → Prop) (err : string) :
  preserves P (throw err : M H A).
Proof. by intros w. Qed.

Lemma preserves_when (P : env → Prop) (c : env → bool) (m : M H unit) :
  (∀ w, c (envr w) = true → P (envr w) → P (envr (m w).2)) →
  preserves P (when c m).
Proof.
  intros Hm w Hw. unfold when. destruct (c (envr w)) eqn:Hc; [|done]. by apply Hm.
Qed.

Lemma preserves_guarded (P : env → Prop) (c : env → bool) (m : M H unit) :
  preserves P m → preserves P (when c m).
Proof. intros Hm. apply preserves_when. intros w _. apply Hm. Qed.

Lemma silent_push_log (k : nat) (c : call) (e : env) :
  (∀ t, c ≠ recorder_start k t) → c ≠ conn_send k →
  silent k e → silent k (push_log c e).
Proof.
  intros Hs Hd (Hr & Hst & Hse). split; [done|]. simpl. split.
  - intros t [?|Hin%list_elem_of_singleton]%elem_of_app; [by eapply Hst|].
    by eapply Hs.
  - intros [?|Hin%list_elem_of_singleton]%elem_of_app; [done|]. by apply Hd.
Qed.

Lemma silent_note (k : nat) (c : call) :
  (∀ t, c ≠ recorder_start k t) → c ≠ conn_send k →
  preserves (silent k) (note c : M H unit).
Proof. intros Hs Hd w Hw. by apply silent_push_log. Qed.

Lemma silent_ext (throws : oracle) (k : nat) (c : call) :
  (∀ t, c ≠ recorder_start k t) → c ≠ conn_send k →
  preserves (silent k) (ext throws c : M H unit).
Proof.
  intros Hs Hd w Hw. unfold ext. destruct (throws _ _); by apply silent_push_log.
Qed.

Lemma silent_set_recorder (k j : nat) (s : recorder_state) :
  j ≠ k ∨ s = fresh →
  preserves (silent k) (modify_env (set_recorder j s) : M H unit).
Proof.
  intros Hj w (Hr & Hl). split; [|done]. simpl.
  destruct (decide (j = k)) as [->|Hne].
  - destruct Hj as [?| ->]; [done|]. right. apply lookup_insert_eq.
  - by rewrite lookup_insert_ne.
Qed.

Lemma silent_frame (k : nat) (f : env → env) :
  (∀ e, recorders (f e) = recorders e) → (∀ e, log (f e) = log e) →
  preserves (silent k) (modify_env f : M H unit).
Proof.
  intros Hr Hl w Hw. unfold silent. simpl. by rewrite Hr, Hl.
Qed.

Lemma silent_stop (throws : oracle) (k j : nat) :
  preserves (silent k) (MediaRecorder_stop throws j : M H unit).
Proof.
  unfold MediaRecorder_stop. apply preserves_bind; [by apply silent_ext|]. intros _.
  intros w Hw. unfold mbind, M_bind, bind, gets_env. simpl.
  destruct (recorders (envr w) !! j) as [[]|] eqn:Hj; try done.
  apply silent_set_recorder; [|done]. left. intros ->.
  destruct Hw as ([Hr|Hr] & _); congruence.
Qed.

Lemma silent_start (throws : oracle) (k j t : nat) :
  j ≠ k → preserves (silent k) (MediaRecorder_start throws j t : M H unit).
Proof.
  intros Hne. unfold MediaRecorder_start.
  apply preserves_bind; [apply silent_ext; congruence|]. intros _.
  intros w Hw. unfold mbind, M_bind, bind, gets_env. simpl.
  destruct (recorders (envr w) !! j) as [[]|] eqn:Hj; try done;
    apply silent_set_recorder; auto.
Qed.

End Effects.

Section HookFacts.
Import Browser DeepgramVoice.
Context (throws : oracle).

Ltac pres :=
  repeat match goal with
    | |- preserves _ (mbind _ _) => apply preserves_bind; [|intros ?]
    | |- preserves _ (tryCatch _) => apply preserves_tryCatch
    | |- preserves _ (mret _) => apply preserves_ret
    | |- preserves _ (gets _) => apply preserves_gets
    | |- preserves _ (gets_env _) => apply preserves_gets_env
    | |- preserves _ (modify _) => apply preserves_modify
    | |- preserves _ (MediaRecorder_stop _ _) => apply silent_stop
    | |- preserves _ (note _) => apply silent_note; [intros; discriminate | discriminate]
    | |- preserves _ (ext _ _) => apply silent_ext; [intros; discriminate | discriminate]
    | |- preserves _ (modify_env _) => apply silent_frame; [done | done]
    | |- preserves _ (match ?x with _ => _ end) => destruct x
    end.

Lemma silent_cleanupVoice (k : nat) : preserves (silent k) (cleanupVoice throws).
Proof. unfold cleanupVoice, setIsVoiceActive, setLiveTranscript. pres. Qed.

Lemma silent_onTranscript (k : nat) (d : DeepgramTranscriptData) :
  preserves (silent k) (onTranscript d).
Proof.
  unfold onTranscript, setLiveTranscript.
  destruct (Js.truthy_opt (txt_of d) && is_final d); [|destruct (Js.truthy_opt (txt_of d))];
    pres.
Qed.

Lemma silent_handle (k : nat) (ev : event) :
  ev ≠ Open k → preserves (silent k) (handle throws ev).
Proof.
  intros Hev. destruct ev as [| |p r|p r|j|j d|j|j]; simpl.
  - unfold startVoice, setIsVoiceActive, setLiveTranscript.
    apply preserves_bind; [apply silent_cleanupVoice|]. intros _. pres.
  - apply silent_cleanupVoice.
  - apply preserves_guarded. unfold startVoice_token, setIsVoiceActive. pres.
  - apply preserves_guarded. unfold startVoice_microphone, setIsVoiceActive. pres.
    apply silent_set_recorder. by right.
  - apply preserves_guarded, silent_start. congruence.
  - apply preserves_guarded, silent_onTranscript.
  - apply preserves_when. intros w Hd Hw.
    destruct (decide (j = k)) as [->|Hne].
    + exfalso. unfold has_data in Hd.
      destruct Hw as ([Hr|Hr] & _); rewrite Hr in Hd;
        by rewrite andb_false_r in Hd.
    + revert w Hd Hw. intros w _. apply silent_ext; congruence.
  - apply preserves_guarded. unfold onStop, setIsVoiceActive. pres.
Qed.

Lemma silent_run (k : nat) (evs : list event) (w : world hook) :
  Open k ∉ evs → silent k (envr w) → silent k (envr (run throws evs w)).
Proof.
  revert w. induction evs as [|ev evs IH]; intros w Hk Hw; [done|].
  apply not_elem_of_cons in Hk as [Hne Hk]. simpl. apply IH; [done|].
  by apply silent_handle.
Qed.

End HookFacts.

(** ** Teardown *)

Section Teardown.
Import Browser DeepgramVoice.

Lemma cleanupVoice_spec (throws : oracle) (w : world hook) :
  ∃ e, cleanupVoice throws w = (returned (), World hook0 e) ∧
       log e = log (envr w) ++ stops (hk w) ++ finishes (hk w).
Proof.
  destruct w as [[c r b a l] e]. unfold cleanupVoice, stops, finishes.
  unfold MediaRecorder_stop, ext, tryCatch, setIsVoiceActive, setLiveTranscript,
    gets, gets_env, modify, modify_env, mbind, M_bind, bind, mret, M_ret, ret.
  simpl.
  destruct r as [k|], c as [j|]; simpl;
    repeat match goal with
           | |- context [throws ?l ?x] => destruct (throws l x); simpl
           | |- context [recorders e !! ?k] =>
               destruct (recorders e !! k) as [[]|]; simpl
           end;
    eexists; (split; [reflexivity|]); simpl; by rewrite <- ?app_assoc, ?app_nil_r.
Qed.

Lemma cleanupVoice_idle (throws : oracle) (e : env) :
  cleanupVoice throws (World hook0 e) = (returned (), World hook0 e).
Proof. reflexivity. Qed.

End Teardown.

Section LiveTeardown.
Import Browser LiveTranscription.

Lemma stopListening_idle (throws : oracle) (v : world hook) :
  mediaRecorderRef (hk v) = None → mediaStreamRef (hk v) = None →
  deepgramRef (hk v) = None →
  stopListening throws v =
    (returned (),
     World (Hook false (transcriptState (hk v)) (error (hk v)) None None None
                 (bufferRef (hk v))) (envr v)).
Proof.
  destruct v as [[l t er c s r b] e]. simpl. by intros -> -> ->.
Qed.

Lemma stopListening_quiet (v : world hook) :
  (stopListening never_throws v).1 = returned () ∧
  isListening (hk (stopListening never_throws v).2) = false ∧
  bufferRef (hk (stopListening never_throws v).2) = bufferRef (hk v) ∧
  transcriptState (hk (stopListening never_throws v).2) = transcriptState (hk v) ∧
  log (envr (stopListening never_throws v).2) = log (envr v) ++ live_stops v.
Proof.
  destruct v as [[l t er c s r b] e]. unfold live_stops. simpl.
  unfold stopListening, MediaRecorder_stop, ext, never_throws, setIsListening, note,
    gets, gets_env, modify, modify_env, mbind, M_bind, bind, mret, M_ret, ret.
  simpl.
  destruct r as [k|]; [destruct (recorders e !! k) as [[]|] eqn:Hk|];
    simpl; rewrite ?Hk; simpl; destruct s, c; simpl;
    repeat split; by rewrite <- ?app_assoc, ?app_nil_r.
Qed.

Lemma microphone_granted_starts (v : world hook) (p : nat) :
  awaits p await_microphone (envr v) = true →
  log (envr (step never_throws v (microphone_settled p stream_granted))) =
    log (envr v) ++ [new_MediaRecorder p; recorder_start p 250] ∧
  recorders (envr (step never_throws v (microphone_settled p stream_granted))) !! p =
    Some recording.
Proof.
  intros Ha. unfold step. simpl. unfold when. rewrite Ha.
  unfold startListening_microphone, tryCatchWith, MediaRecorder_start, ext, never_throws,
    setIsListening, gets, gets_env, modify, modify_env, mbind, M_bind, bind, mret, M_ret, ret.
  simpl. rewrite lookup_insert_eq. simpl. rewrite lookup_insert_eq.
  split; [|done]. by rewrite <- app_assoc.
Qed.
End LiveTeardown.

(** ** Claims on the session life cycle *)

Section LifecycleClaims.
Import Browser DeepgramVoice.

(** C2, as the code has it.  [cleanupVoice], the teardown of
    [useDeepgramVoice], returns normally from every state and whatever the
    recorder and the connection throw; it leaves the hook idle, with empty
    committed and live transcripts; stopping the recorder and finishing the
    connection are both attempted, each on the ref that is set, so a throw
    of the first does not keep the second from running; a second call in a
    row, and a call with no session, do nothing.  [stopListening] of
    [useLiveTranscription] has no guards and keeps the transcript: when
    nothing throws it stops a recording recorder, the tracks and the
    connection and clears [isListening]; with no session it only clears
    [isListening]. *)
Theorem teardown_is_safe
    (throws : oracle) (w : world hook) (v : world LiveTranscription.hook) :
  (cleanupVoice throws w).1 = returned () ∧
  hk (cleanupVoice throws w).2 = Hook None None "" false "" ∧
  log (envr (cleanupVoice throws w).2) =
    log (envr w) ++ stops (hk w) ++ finishes (hk w) ∧
  cleanupVoice throws (cleanupVoice throws w).2 =
    (returned (), (cleanupVoice throws w).2) ∧
  cleanupVoice throws (World hook0 (envr w)) = (returned (), World hook0 (envr w)) ∧
  (LiveTranscription.stopListening never_throws v).1 = returned () ∧
  LiveTranscription.isListening
    (hk (LiveTranscription.stopListening never_throws v).2) = false ∧
  log (envr (LiveTranscription.stopListening never_throws v).2) =
    log (envr v) ++ LiveTranscription.live_stops v ∧
  LiveTranscription.bufferRef (hk (LiveTranscription.stopListening never_throws v).2) =
    LiveTranscription.bufferRef (hk v) ∧
  (LiveTranscription.mediaRecorderRef (hk v) = None →
   LiveTranscription.mediaStreamRef (hk v) = None →
   LiveTranscription.deepgramRef (hk v) = None →
   (LiveTranscription.stopListening throws v).1 = returned () ∧
   envr (LiveTranscription.stopListening throws v).2 = envr v ∧
   LiveTranscription.isListening
     (hk (LiveTranscription.stopListening throws v).2) = false).
Proof.
  destruct (cleanupVoice_spec throws w) as (e & Hc & He).
  destruct (stopListening_quiet v) as (Hr & Hl & Hb & _ & Hlog).
  rewrite Hc. simpl. repeat apply conj; try done.
  intros Hrec Hstream Hconn. by rewrite (stopListening_idle throws v Hrec Hstream Hconn).
Qed.

Lemma teardown_is_safe_witness :
  (LiveTranscription.stopListening (throws_on is_conn_finish)
     LiveTranscription.world0).1 = returned ().
Proof.
  refine (proj1 (proj2 (proj2 (proj2 (proj2 (proj2 (proj2 (proj2 (proj2 (proj2
    (teardown_is_safe (throws_on is_conn_finish) world0
       LiveTranscription.world0))))))))) _ _ _)); reflexivity.
Defined.

(** C2 as stated fails on [stopListening]: after a session that heard
    "hello", stopping leaves the transcript and its buffer in place; and
    when finishing the connection throws, the error leaves [stopListening]
    and [isListening] stays set; when stopping the recorder throws, neither
    the tracks are stopped nor the connection finished. *)
Lemma stopListening_counterexample :
  LiveTranscription.transcriptState
    (hk (LiveTranscription.run never_throws LiveTranscription.hello_then_stop
           LiveTranscription.world0)) = "hello" ∧
  LiveTranscription.bufferRef
    (hk (LiveTranscription.run never_throws LiveTranscription.hello_then_stop
           LiveTranscription.world0)) = "hello" ∧
  (LiveTranscription.stopListening (throws_on is_conn_finish)
     (LiveTranscription.run never_throws LiveTranscription.chunk_without_open
        LiveTranscription.world0)).1 = thrown "Error" ∧
  LiveTranscription.isListening
    (hk (LiveTranscription.stopListening (throws_on is_conn_finish)
           (LiveTranscription.run never_throws LiveTranscription.chunk_without_open
              LiveTranscription.world0)).2) = true ∧
  log (envr (LiveTranscription.stopListening (throws_on is_recorder_stop)
               (LiveTranscription.run never_throws LiveTranscription.chunk_without_open
                  LiveTranscription.world0)).2) =
    log (envr (LiveTranscription.run never_throws LiveTranscription.chunk_without_open
                 LiveTranscription.world0)) ++ [recorder_stop 0].
Proof. by vm_compute. Qed.

(** C3 fails in [startVoice]: no continuation asks whether its session is
    still the current one.  When the user stops during the token fetch, or
    during the microphone request, the settled promise still leads to a
    recorder and a connection, both stored in the refs that the teardown had
    cleared; the Open event starts the recorder and its chunk is sent.  Only
    [isVoiceActive] stays false. *)
Theorem late_settlement_resurrects_session :
  log (envr (run never_throws stop_during_fetch world0)) =
    [ fetch_token 0; getUserMedia 0; new_MediaRecorder 0; listen_live 0;
      recorder_start 0 250; conn_send 0 ] ∧
  hk (run never_throws stop_during_fetch world0) = Hook (Some 0) (Some 0) "" false "" ∧
  recorders (envr (run never_throws stop_during_fetch world0)) !! 0 = Some recording ∧
  log (envr (run never_throws stop_during_microphone world0)) =
    [ fetch_token 0; getUserMedia 0; new_MediaRecorder 0; listen_live 0;
      recorder_start 0 250; conn_send 0 ] ∧
  hk (run never_throws stop_during_microphone world0) =
    Hook (Some 0) (Some 0) "" false "" ∧
  recorders (envr (run never_throws stop_during_microphone world0)) !! 0 =
    Some recording.
Proof. by vm_compute. Qed.

(** The part of C3 that holds: a settled promise never sets
    [isVoiceActive]. *)
Lemma late_settlement_keeps_inactive (throws : oracle) (w : world hook) (ev : event) :
  (∃ p r, ev = token_settled p r) ∨ (∃ p r, ev = microphone_settled p r) →
  isVoiceActive (hk w) = false →
  isVoiceActive (hk (step throws w ev)) = false.
Proof.
  destruct w as [[c r b a l] e]. simpl.
  intros [(p & x & ->) | (p & x & ->)] ->; unfold step, handle, when; simpl.
  - destruct (awaits p await_token e); [|done].
    by destruct x as [[[|? ?]|]|].
  - destruct (awaits p await_microphone e); [|done].
    destruct x; [|done]. unfold startVoice_microphone, ext.
    unfold modify, modify_env, mbind, M_bind, bind. simpl.
    by repeat (destruct (throws _ _); simpl).
Qed.

(** C4, as the code has it.  In [useDeepgramVoice] the recorder of a
    session is started by the Open handler of its connection only: as long
    as Open has not been delivered for session [k], recorder [k] has not
    been started and no chunk has been sent on connection [k], whatever else
    the session went through.  [useLiveTranscription] registers nothing for
    Open: it starts its recorder, with the same 250 ms, as soon as the
    microphone is granted. *)
Theorem capture_waits_for_open
    (throws : oracle) (evs : list event) (k : nat)
    (v : world LiveTranscription.hook) (p : nat) :
  (Open k ∉ evs →
     (∀ t, recorder_start k t ∉ log (envr (run throws evs world0))) ∧
     (conn_send k ∉ log (envr (run throws evs world0))) ∧
     recorders (envr (run throws evs world0)) !! k ≠ Some recording) ∧
  (awaits p await_microphone (envr v) = true →
     log (envr (LiveTranscription.step never_throws v
                  (LiveTranscription.microphone_settled p stream_granted))) =
       log (envr v) ++ [new_MediaRecorder p; recorder_start p 250] ∧
     recorders (envr (LiveTranscription.step never_throws v
                        (LiveTranscription.microphone_settled p stream_granted))) !! p =
       Some recording).
Proof.
  split; [|apply microphone_granted_starts].
  intros Hk.
  assert (silent k (envr world0)) as H0.
  { split; [by left|]. split; [intros t|]; apply not_elem_of_nil. }
  destruct (silent_run throws k evs world0 Hk H0) as (Hr & Hs & Hd).
  repeat split; [done|done|]. destruct Hr as [Hr|Hr]; congruence.
Qed.

Lemma capture_waits_for_open_witness :
  (conn_send 0 ∉
    log (envr (run never_throws
                 [ click_start; token_settled 0 (token_json (Some "tok"));
                   microphone_settled 0 stream_granted; dataavailable 0 ]
                 world0))) ∧
  recorders
    (envr (LiveTranscription.step never_throws
             (LiveTranscription.run never_throws
                [ LiveTranscription.click_start;
                  LiveTranscription.token_settled 0 (token_json (Some "tok")) ]
                LiveTranscription.world0)
             (LiveTranscription.microphone_settled 0 stream_granted))) !! 0 =
    Some recording.
Proof.
  split.
  - refine (proj1 (proj2 (proj1
      (capture_waits_for_open never_throws
         [ click_start; token_settled 0 (token_json (Some "tok"));
           microphone_settled 0 stream_granted; dataavailable 0 ]
         0 LiveTranscription.world0 0) _))).
    intros H. repeat (apply elem_of_cons in H as [H|H]; [discriminate H|]).
    by apply elem_of_nil in H.
  - refine (proj2 (proj2
      (capture_waits_for_open never_throws [] 0
         (LiveTranscription.run never_throws
            [ LiveTranscription.click_start;
              LiveTranscription.token_settled 0 (token_json (Some "tok")) ]
            LiveTranscription.world0) 0) _)).
    reflexivity.
Defined.

(** C4 as stated fails in [useLiveTranscription]: without any Open event
    the recorder is started and its chunk is sent to the connection. *)
Lemma live_capture_without_open :
  existsb LiveTranscription.is_Open LiveTranscription.chunk_without_open = false ∧
  log (envr (LiveTranscription.run never_throws LiveTranscription.chunk_without_open
               LiveTranscription.world0)) =
    [ fetch_token 0; listen_live 0; getUserMedia 0; new_MediaRecorder 0;
      recorder_start 0 250; conn_send 0 ].
Proof. by vm_compute. Qed.

End LifecycleClaims.

(** * Further properties *)

(** ** What a run of payloads commits *)

Section Joined.
Import Browser DeepgramVoice Transcripts.

Lemma concat_snoc (ts : list string) (t : string) :
  ts ≠ [] → String.concat " " (ts ++ [t]) = String.concat " " ts +:+ " " +:+ t.
Proof.
  induction ts as [|x ts IH]; [done|]. intros _.
  destruct ts as [|y ts]; [done|].
  change (String.concat " " ((x :: y :: ts) ++ [t]))
    with (x +:+ " " +:+ String.concat " " ((y :: ts) ++ [t])).
  rewrite IH by done.
  change (String.concat " " (x :: y :: ts)) with (x +:+ " " +:+ String.concat " " (y :: ts)).
  by rewrite !append_assoc.
Qed.

Lemma append_truthy (a b : string) : Js.truthy a = true → Js.truthy (a +:+ b) = true.
Proof. by destruct a. Qed.

Lemma concat_truthy (ts : list string) :
  Forall (λ t, Js.truthy t = true) ts → ts ≠ [] →
  Js.truthy (String.concat " " ts) = true.
Proof.
  intros Hts Hne. destruct ts as [|x ts]; [done|].
  apply Forall_cons in Hts as [Hx _].
  destruct ts; [done|]. by apply append_truthy.
Qed.

Lemma piece_truthy (d : DeepgramTranscriptData) (t : string) :
  piece d = Some t → Js.truthy t = true.
Proof.
  unfold piece. destruct (txt_of d) as [u|]; [|done].
  destruct (Js.truthy u) eqn:Hu; simpl; [|done].
  destruct (is_final d); [|done]. by intros [= <-].
Qed.

Lemma pieces_truthy (ds : list DeepgramTranscriptData) :
  Forall (λ t, Js.truthy t = true) (pieces ds).
Proof.
  induction ds as [|d ds IH]; [constructor|]. unfold pieces. simpl.
  destruct (piece d) as [t|] eqn:Hd; [|done].
  constructor; [by eapply piece_truthy | done].
Qed.

(** What one payload does, by what it commits. *)
Lemma onTranscript_piece (d : DeepgramTranscriptData) (w : world hook) :
  match piece d with
  | Some t =>
      bufferRef (hk (onTranscript d w).2) =
        bufferRef (hk w) +:+ (if Js.truthy (bufferRef (hk w)) then " " else "") +:+ t ∧
      log (envr (onTranscript d w).2) =
        log (envr w) ++ [onTranscriptUpdate (bufferRef (hk (onTranscript d w).2))]
  | None =>
      bufferRef (hk (onTranscript d w).2) = bufferRef (hk w) ∧
      log (envr (onTranscript d w).2) = log (envr w)
  end.
Proof.
  unfold piece. destruct (onTranscript_cases d) as [Hi | (t & Ht & Hne)].
  - rewrite onTranscript_ignored by done.
    destruct (txt_of d) as [u|]; [|done]. simpl in Hi. by rewrite Hi.
  - rewrite Ht. apply truthy_spec in Hne as Htr. rewrite Htr. simpl.
    destruct (is_final d) eqn:Hf.
    + by rewrite (onTranscript_final _ _ t).
    + by rewrite (onTranscript_interim _ _ t).
Qed.

(** The buffer after a run: what was committed before and the texts of the
    run, joined by single spaces. *)
Lemma deliver_buffer (ds : list DeepgramTranscriptData) (w : world hook) :
  bufferRef (hk (deliver ds w)) =
    String.concat " "
      ((if Js.truthy (bufferRef (hk w)) then [bufferRef (hk w)] else []) ++ pieces ds).
Proof.
  set (pre := if Js.truthy (bufferRef (hk w)) then [bufferRef (hk w)] else []).
  assert (Forall (λ t, Js.truthy t = true) pre) as Hpre.
  { unfold pre. destruct (Js.truthy (bufferRef (hk w))) eqn:Hb; by repeat constructor. }
  induction ds as [|d ds IH] using rev_ind.
  - unfold pre. simpl. rewrite app_nil_r. by destruct (bufferRef (hk w)).
  - unfold deliver in *. rewrite foldl_snoc.
    set (w' := foldl _ w ds) in *.
    unfold pieces in *. rewrite omap_app. simpl.
    pose proof (onTranscript_piece d w') as Hd.
    destruct (piece d) as [t|] eqn:Hp; simpl.
    + destruct Hd as [Hb _]. rewrite Hb, IH, app_assoc.
      destruct (pre ++ omap piece ds) as [|x l] eqn:Hl0; [reflexivity|].
      rewrite concat_truthy; [|rewrite <- Hl0|done].
      * by rewrite concat_snoc.
      * apply Forall_app. split; [done | apply pieces_truthy].
    + destruct Hd as [Hb _]. by rewrite app_nil_r, Hb.
Qed.

(** The update callbacks of a run started on an empty buffer. *)
Lemma deliver_updates (ds : list DeepgramTranscriptData) (w : world hook) :
  bufferRef (hk w) = "" →
  log (envr (deliver ds w)) = log (envr w) ++ updates (pieces ds).
Proof.
  intros Hw. induction ds as [|d ds IH] using rev_ind.
  - simpl. by rewrite app_nil_r.
  - pose proof (deliver_buffer (ds ++ [d]) w) as Hbuf.
    rewrite Hw in Hbuf. simpl in Hbuf.
    unfold deliver in *. rewrite foldl_snoc in *.
    set (w' := foldl _ w ds) in *.
    unfold pieces in *. rewrite omap_app in *. simpl in *.
    pose proof (onTranscript_piece d w') as Hd.
    destruct (piece d) as [t|] eqn:Hp; simpl in *.
    + destruct Hd as [_ Hl]. rewrite Hl, IH, Hbuf, <- app_assoc. f_equal.
      unfold updates. rewrite length_app. simpl.
      rewrite Nat.add_1_r, seq_S, fmap_app. simpl. f_equal.
      * apply list_fmap_ext. intros i n Hn. apply lookup_seq in Hn as [-> Hi].
        f_equal. f_equal. rewrite take_app_le; [done|lia].
      * rewrite firstn_all2; [done|]. rewrite length_app. simpl. lia.
    + destruct Hd as [_ Hl]. by rewrite app_nil_r, Hl.
Qed.

End Joined.

(** ** The calls of [useDeepgramVoice] and their causes *)

Section Footprints.
Import Browser DeepgramVoice Footprint.
Context (throws : oracle).

Ltac open_step :=
  unfold step, handle, when, startVoice, stopVoice, cleanupVoice, startVoice_token,
    startVoice_microphone, onOpen, onDataAvailable, onStop,
    MediaRecorder_start, MediaRecorder_stop, ext, note, tryCatch, throw,
    setIsVoiceActive, setLiveTranscript, gets, gets_env, modify, modify_env,
    mbind, M_bind, bind, mret, M_ret, ret.

Ltac split_cases :=
  repeat match goal with
    | |- context [throws ?l ?c] => destruct (throws l c); simpl
    | |- context [match recorders ?e !! ?k with _ => _ end] =>
        destruct (recorders e !! k) as [[]|]; simpl
    | |- context [if ?b then _ else _] => destruct b eqn:?; simpl
    | |- context [match ?x with _ => _ end] => destruct x eqn:?; simpl
    end.

Ltac added :=
  first
    [ by exists []; rewrite app_nil_r
    | eexists; split;
      [ rewrite <- ?app_assoc; reflexivity
      | repeat constructor; simpl; by rewrite ?bool_decide_eq_true_2 ] ].

(** One step adds to the log only what its event can cause. *)
Lemma step_footprint (w : world hook) (ev : event) :
  ∃ added,
    log (envr (step throws w ev)) = log (envr w) ++ added ∧
    Forall (λ c, causes ev c = true) added.
Proof.
  destruct ev as [| |p r|p r|k|k d|k|k].
  8: { destruct w as [[c r b a l] e]. open_step. simpl. split_cases; added. }
  7: { destruct w as [[c r b a l] e]. open_step. simpl. split_cases; added. }
  6: { unfold step, handle, when. destruct (listening k (envr w)); [|added].
       pose proof (onTranscript_piece d w) as Hd. unfold Transcripts.piece in Hd.
       destruct (txt_of d) as [t|]; [|destruct Hd as [_ ->]; added].
       destruct (Js.truthy t); simpl in Hd; [|destruct Hd as [_ ->]; added].
       destruct (is_final d) eqn:Hf; [|destruct Hd as [_ ->]; added].
       destruct Hd as [_ ->]. eexists. split; [done|]. repeat constructor. simpl. done. }
  all: destruct w as [[c0 r0 b a l] e]; open_step; simpl; split_cases; added.
Qed.
Lemma run_footprint (evs : list event) (w : world hook) (c : call) :
  c ∈ log (envr (run throws evs w)) →
  c ∈ log (envr w) ∨ ∃ ev, ev ∈ evs ∧ causes ev c = true.
Proof.
  revert w. induction evs as [|ev evs IH]; intros w; simpl; [by left|].
  intros [Hc | (ev' & Hin & Hev)]%IH.
  - destruct (step_footprint w ev) as (added & Hlog & Hadd).
    rewrite Hlog in Hc. apply elem_of_app in Hc as [Hc|Hc]; [by left|].
    right. exists ev. split; [by left|].
    rewrite Forall_forall in Hadd. by apply Hadd.
  - right. exists ev'. split; [by right | done].
Qed.

(** The stop handler of a recorder that has not recorded is never run. *)
Lemma step_keeps_tracks (w : world hook) (ev : event) (k : nat) :
  silent k (envr w) → track_stop k ∉ log (envr w) →
  track_stop k ∉ log (envr (step throws w ev)).
Proof.
  intros Hs Ht.
  assert (ev = recorder_stopped k ∨ causes ev (track_stop k) = false) as [->|Hno].
  { destruct ev as [| |? [[[|]|]|]|? []| | | |j]; try by right.
    destruct (decide (j = k)) as [->|Hne]; [by left|right].
    simpl. by apply bool_decide_eq_false_2. }
  - unfold step, handle, when, has_stopped.
    destruct Hs as ([Hr|Hr] & _); rewrite Hr; by rewrite andb_false_r.
  - destruct (step_footprint w ev) as (added & -> & Hadd).
    intros [?|Hin]%elem_of_app; [done|].
    rewrite Forall_forall in Hadd. specialize (Hadd _ Hin). congruence.
Qed.

Lemma run_keeps_tracks (evs : list event) (w : world hook) (k : nat) :
  Open k ∉ evs → silent k (envr w) → track_stop k ∉ log (envr w) →
  track_stop k ∉ log (envr (run throws evs w)).
Proof.
  revert w. induction evs as [|ev evs IH]; intros w Hk Hs Ht; [done|].
  apply not_elem_of_cons in Hk as [Hne Hk]. simpl. apply IH; [done| |].
  - by apply silent_handle.
  - by apply step_keeps_tracks.
Qed.

End Footprints.

(** ** Starting and stopping [useDeepgramVoice] *)

Section LifecycleExtras.
Import Browser DeepgramVoice Footprint Transcripts.

(** X1. After any sequence of Transcript payloads the committed buffer of
    [useDeepgramVoice] is what it was, followed by the trimmed non-empty
    final texts among them in order, joined by single spaces. *)
Theorem committed_is_joined (ds : list DeepgramTranscriptData) (w : world hook) :
  bufferRef (hk (deliver ds w)) =
    String.concat " "
      ((if Js.truthy (bufferRef (hk w)) then [bufferRef (hk w)] else []) ++ pieces ds).
Proof. apply deliver_buffer. Qed.

(** X2. Starting from an empty buffer, the consumer is called once per
    committed final result, each time with the whole transcript so far;
    the last call carries the buffer as it stands. *)
Theorem updates_carry_whole_transcript
    (ds : list DeepgramTranscriptData) (w : world hook) :
  bufferRef (hk w) = "" →
  log (envr (deliver ds w)) = log (envr w) ++ updates (pieces ds) ∧
  length (updates (pieces ds)) = length (pieces ds) ∧
  (pieces ds ≠ [] →
   last (log (envr (deliver ds w))) =
     Some (onTranscriptUpdate (bufferRef (hk (deliver ds w))))).
Proof.
  intros Hw. rewrite (deliver_updates ds w Hw). split; [done|]. split.
  { unfold updates. by rewrite length_fmap, length_seq. }
  intros Hne. rewrite deliver_buffer, Hw. simpl.
  unfold updates. destruct (pieces ds) as [|t ts] eqn:Hp using rev_ind; [done|].
  clear IHts. rewrite length_app. simpl. rewrite Nat.add_1_r, seq_S, fmap_app.
  simpl. rewrite app_assoc, last_snoc. f_equal. f_equal. f_equal.
  rewrite firstn_all2; [done|]. rewrite length_app. simpl. lia.
Qed.

Lemma updates_carry_whole_transcript_witness :
  log (envr (deliver [FinalText "create"; PartialText "cou"; FinalText " course "] world0)) =
    [onTranscriptUpdate "create"; onTranscriptUpdate "create course"].
Proof.
  refine (proj1 (updates_carry_whole_transcript
                   [FinalText "create"; PartialText "cou"; FinalText " course "]
                   world0 _)).
  reflexivity.
Defined.

(** X3. Whatever fails along the way, every call [useDeepgramVoice] makes
    from its initial state answers an event of the run that can cause it:
    the microphone is requested only for a fetch that brought a token, the
    recorder started only at an Open event, a chunk sent only at
    [dataavailable], the consumer told of a transcript only at a final
    result. *)
Theorem calls_follow_their_events (throws : oracle) (evs : list event) (c : call) :
  c ∈ log (envr (run throws evs world0)) → ∃ ev, ev ∈ evs ∧ causes ev c = true.
Proof.
  intros [Hin|Hev]%run_footprint; [by apply elem_of_nil in Hin | done].
Qed.

Lemma calls_follow_their_events_witness :
  ∃ ev, ev ∈ [click_start] ∧ causes ev (fetch_token 0) = true.
Proof.
  apply (calls_follow_their_events never_throws [click_start] (fetch_token 0)).
  vm_compute. by left.
Defined.

(** X4. A token fetch that is rejected, or answers without a token or with
    an empty one, ends the start: the consumer's [onError] is told, the
    hook turns inactive, and the microphone is never requested for that
    start. *)
Theorem token_failure_stops_start
    (throws : oracle) (evs : list event) (p : nat) (w : world hook) (r : fetch_result) :
  ((∀ r', token_settled p r' ∈ evs → token_missing r' = true) →
     getUserMedia p ∉ log (envr (run throws evs world0))) ∧
  (awaits p await_token (envr w) = true → token_missing r = true →
     log (envr (step throws w (token_settled p r))) =
       log (envr w) ++ [onError (token_complaint r)] ∧
     isVoiceActive (hk (step throws w (token_settled p r))) = false ∧
     pending (envr (step throws w (token_settled p r))) !! p = None).
Proof.
  split.
  - intros Hall [Hin | (ev & Hev & Hc)]%run_footprint; [by apply elem_of_nil in Hin|].
    destruct ev as [| |q [[[|]|]|]|q []| | | |]; simpl in Hc; try done.
    apply bool_decide_eq_true_1 in Hc as ->. by apply Hall in Hev.
  - intros Ha Hr. destruct w as [[c0 r0 b a l] e]. simpl in *.
    unfold step, handle, when. cbn [envr hk]. rewrite Ha.
    destruct r as [[[|]|]|]; try done; simpl; by rewrite lookup_delete_eq.
Qed.

Lemma token_failure_stops_start_witness :
  log (envr (step never_throws (run never_throws [click_start] world0)
               (token_settled 0 (token_json None)))) =
    [fetch_token 0; onError "Could not fetch Deepgram token: Error: No Deepgram token"].
Proof.
  refine (proj1 (proj2 (token_failure_stops_start never_throws [] 0
                          (run never_throws [click_start] world0) (token_json None))
                   _ _)); reflexivity.
Defined.

(** X5. A refused microphone ends the start before anything is opened: no
    recorder and no connection exist for a start whose microphone request
    was not granted, the consumer's [onError] is told, and the hook turns
    inactive with its refs as they were. *)
Theorem microphone_refusal_stops_start
    (throws : oracle) (evs : list event) (p : nat) (w : world hook) (err : string) :
  (microphone_settled p stream_granted ∉ evs →
     (new_MediaRecorder p ∉ log (envr (run throws evs world0))) ∧
     (listen_live p ∉ log (envr (run throws evs world0)))) ∧
  (awaits p await_microphone (envr w) = true →
     log (envr (step throws w (microphone_settled p (microphone_rejected err)))) =
       log (envr w) ++ [onError ("Could not access microphone: " +:+ err)] ∧
     recorders (envr (step throws w (microphone_settled p (microphone_rejected err)))) =
       recorders (envr w) ∧
     connections (envr (step throws w (microphone_settled p (microphone_rejected err)))) =
       connections (envr w) ∧
     hk (step throws w (microphone_settled p (microphone_rejected err))) =
       Hook (dgConnRef (hk w)) (recorderRef (hk w)) (bufferRef (hk w)) false
            (liveTranscript (hk w))).
Proof.
  split.
  - intros Hno. split;
      (intros [Hin | (ev & Hev & Hc)]%run_footprint; [by apply elem_of_nil in Hin|]);
      destruct ev as [| |q [[[|]|]|]|q []| | | |]; simpl in Hc; try done;
      apply bool_decide_eq_true_1 in Hc as ->; done.
  - intros Ha. destruct w as [[c0 r0 b a l] e]. simpl in *.
    unfold step, handle, when. cbn [envr hk]. by rewrite Ha.
Qed.

Lemma microphone_refusal_stops_start_witness :
  log (envr (step never_throws
               (run never_throws [click_start; token_settled 0 (token_json (Some "tok"))]
                  world0)
               (microphone_settled 0 (microphone_rejected "NotAllowedError")))) =
    [fetch_token 0; getUserMedia 0;
     onError "Could not access microphone: NotAllowedError"].
Proof.
  refine (proj1 (proj2 (microphone_refusal_stops_start never_throws [] 0
                          (run never_throws
                             [click_start; token_settled 0 (token_json (Some "tok"))]
                             world0)
                          "NotAllowedError") _)).
  reflexivity.
Defined.

(** X6. The tracks of the microphone stream are stopped only by the stop
    handler of a recorder that was started: for a session whose connection
    never opens, no run, stopping included, ever stops them. *)
Theorem microphone_kept_without_open (throws : oracle) (evs : list event) (k : nat) :
  Open k ∉ evs → track_stop k ∉ log (envr (run throws evs world0)).
Proof.
  intros Hk. apply run_keeps_tracks; [done| |apply not_elem_of_nil].
  split; [by left|]. split; [intros t|]; apply not_elem_of_nil.
Qed.

Lemma microphone_kept_without_open_witness :
  track_stop 0 ∉
    log (envr (run never_throws
                 [click_start; token_settled 0 (token_json (Some "tok"));
                  microphone_settled 0 stream_granted; click_stop]
                 world0)).
Proof.
  apply (microphone_kept_without_open never_throws
           [click_start; token_settled 0 (token_json (Some "tok"));
            microphone_settled 0 stream_granted; click_stop] 0).
  intros H. repeat (apply elem_of_cons in H as [H|H]; [discriminate H|]).
  by apply elem_of_nil in H.
Defined.

(** X7. Stopping a session that is recording: the recorder is stopped and
    the connection finished by [stopVoice], then the stop handler of the
    recorder stops the tracks and finishes the same connection a second
    time; the hook is back in its initial state. *)
Theorem stop_releases_streaming_session (w : world hook) (k : nat) :
  recorderRef (hk w) = Some k → dgConnRef (hk w) = Some k →
  recorders (envr w) !! k = Some recording → k ∈ connections (envr w) →
  log (envr (run never_throws [click_stop; recorder_stopped k] w)) =
    log (envr w) ++ [recorder_stop k; conn_finish k; track_stop k; conn_finish k] ∧
  hk (run never_throws [click_stop; recorder_stopped k] w) = hook0 ∧
  recorders (envr (run never_throws [click_stop; recorder_stopped k] w)) !! k =
    Some stopped.
Proof.
  destruct w as [[c0 r0 b a l] e]. simpl. intros -> -> Hr Hk.
  unfold run, step, handle, when, stopVoice, cleanupVoice, MediaRecorder_stop, ext,
    never_throws, tryCatch, gets, gets_env, modify, modify_env, mbind, M_bind, bind.
  simpl. rewrite Hr. simpl.
  unfold has_stopped, listening. simpl.
  rewrite (bool_decide_eq_true_2 _ Hk), lookup_insert_eq. simpl.
  rewrite lookup_insert_eq. repeat split. by rewrite <- !app_assoc.
Qed.

Lemma stop_releases_streaming_session_witness :
  hk (run never_throws [click_stop; recorder_stopped 0]
        (run never_throws
           [click_start; token_settled 0 (token_json (Some "tok"));
            microphone_settled 0 stream_granted; Open 0] world0)) = hook0.
Proof.
  refine (proj1 (proj2 (stop_releases_streaming_session
            (run never_throws
               [click_start; token_settled 0 (token_json (Some "tok"));
                microphone_settled 0 stream_granted; Open 0] world0) 0 _ _ _ _)));
    vm_compute; reflexivity.
Defined.

Lemma cleanupVoice_frame (throws : oracle) (w : world hook) :
  invocations (envr (cleanupVoice throws w).2) = invocations (envr w) ∧
  pending (envr (cleanupVoice throws w).2) = pending (envr w) ∧
  connections (envr (cleanupVoice throws w).2) = connections (envr w).
Proof.
  destruct w as [[c0 r0 b a l] e0].
  unfold cleanupVoice, MediaRecorder_stop, ext, tryCatch, setIsVoiceActive,
    setLiveTranscript, gets, gets_env, modify, modify_env, mbind, M_bind, bind,
    mret, M_ret, ret. simpl.
  destruct r0, c0; simpl;
    repeat match goal with
           | |- context [throws ?l ?x] => destruct (throws l x); simpl
           | |- context [recorders e0 !! ?k] =>
               destruct (recorders e0 !! k) as [[]|]; simpl
           end; done.
Qed.

(** X8. Whatever its state, [startVoice] first stops the current recorder
    and finishes the current connection, then asks for a token under a
    fresh invocation number, with the hook active and both transcripts
    empty. *)
Theorem start_tears_down_first (throws : oracle) (w : world hook) :
  log (envr (step throws w click_start)) =
    log (envr w) ++ stops (hk w) ++ finishes (hk w) ++
    [fetch_token (invocations (envr w))] ∧
  hk (step throws w click_start) = Hook None None "" true "" ∧
  awaits (invocations (envr w)) await_token (envr (step throws w click_start)) = true ∧
  invocations (envr (step throws w click_start)) = S (invocations (envr w)).
Proof.
  destruct (cleanupVoice_spec throws w) as (e & Hc & He).
  destruct (cleanupVoice_frame throws w) as (Hi & _). rewrite Hc in Hi. simpl in Hi.
  assert (step throws w click_start =
          World (Hook None None "" true "")
                (set_pending (invocations e) (Some await_token)
                   (push_log (fetch_token (invocations e)) (next_invocation e)))) as ->.
  { unfold step, handle, startVoice, mbind, M_bind, bind. by rewrite Hc. }
  simpl. unfold awaits. simpl. rewrite Hi, lookup_insert_eq, He.
  repeat split. by rewrite <- !app_assoc.
Qed.

End LifecycleExtras.

(** ** What a computation leaves of the hook state *)

Section FrameRules.
Import Browser Frames.
Context {H B : Type} (f : H → B).

Lemma keeps_sound {A} (m : M H A) (w : world H) : keeps f m → f (hk (m w).2) = f (hk w).
Proof. intros Hm. apply Hm. Qed.

Lemma keeps_ret {A} (a : A) : keeps f (mret a : M H A).
Proof. by intros w. Qed.

Lemma keeps_bind {A C} (m : M H A) (k : A → M H C) :
  keeps f m → (∀ a, keeps f (k a)) → keeps f (m ≫= k).
Proof.
  intros Hm Hk w. unfold mbind, M_bind, bind. specialize (Hm w).
  destruct (m w) as [[a|err] w']; simpl in *; [|done]. by rewrite Hk.
Qed.

Lemma keeps_tryCatch (m : M H unit) : keeps f m → keeps f (tryCatch m).
Proof. intros Hm w. apply Hm. Qed.

Lemma keeps_tryCatchWith (m : M H unit) (h : string → M H unit) :
  keeps f m → (∀ err, keeps f (h err)) → keeps f (tryCatchWith m h).
Proof.
  intros Hm Hh w. unfold tryCatchWith. specialize (Hm w).
  destruct (m w) as [[a|err] w']; simpl in *; [done|]. by rewrite Hh.
Qed.

Lemma keeps_throw {A} (err : string) : keeps f (throw err : M H A).
Proof. by intros w. Qed.

Lemma keeps_gets {A} (g : H → A) : keeps f (gets g).
Proof. by intros w. Qed.

Lemma keeps_gets_env {A} (g : env → A) : keeps f (gets_env g : M H A).
Proof. by intros w. Qed.

Lemma keeps_modify_env (g : env → env) : keeps f (modify_env g : M H unit).
Proof. by intros w. Qed.

Lemma keeps_note (c : call) : keeps f (note c : M H unit).
Proof. by intros w. Qed.

Lemma keeps_ext (throws : oracle) (c : call) : keeps f (ext throws c : M H unit).
Proof. intros w. unfold ext. by destruct (throws _ _). Qed.

Lemma keeps_modify (g : H → H) : (∀ h, f (g h) = f h) → keeps f (modify g).
Proof. intros Hg w. apply Hg. Qed.

Lemma keeps_when (c : env → bool) (m : M H unit) : keeps f m → keeps f (when c m).
Proof. intros Hm w. unfold when. destruct (c (envr w)); [apply Hm | done]. Qed.

Lemma keeps_start (throws : oracle) (k t : nat) :
  keeps f (MediaRecorder_start throws k t : M H unit).
Proof.
  unfold MediaRecorder_start. apply keeps_bind; [apply keeps_ext|]. intros _.
  apply keeps_bind; [apply keeps_gets_env|]. intros [[]|]; by intros w.
Qed.

Lemma keeps_stop (throws : oracle) (k : nat) :
  keeps f (MediaRecorder_stop throws k : M H unit).
Proof.
  unfold MediaRecorder_stop. apply keeps_bind; [apply keeps_ext|]. intros _.
  apply keeps_bind; [apply keeps_gets_env|]. intros [[]|]; by intros w.
Qed.

End FrameRules.

Ltac frame :=
  repeat match goal with
    | |- Frames.keeps _ (mbind _ _) => apply keeps_bind; [|intros ?]
    | |- Frames.keeps _ (Browser.tryCatch _) => apply keeps_tryCatch
    | |- Frames.keeps _ (Browser.tryCatchWith _ _) => apply keeps_tryCatchWith; [|intros ?]
    | |- Frames.keeps _ (Browser.when _ _) => apply keeps_when
    | |- Frames.keeps _ (mret _) => apply keeps_ret
    | |- Frames.keeps _ (Browser.throw _) => apply keeps_throw
    | |- Frames.keeps _ (Browser.gets _) => apply keeps_gets
    | |- Frames.keeps _ (Browser.gets_env _) => apply keeps_gets_env
    | |- Frames.keeps _ (Browser.modify_env _) => apply keeps_modify_env
    | |- Frames.keeps _ (Browser.note _) => apply keeps_note
    | |- Frames.keeps _ (Browser.ext _ _) => apply keeps_ext
    | |- Frames.keeps _ (Browser.MediaRecorder_start _ _ _) => apply keeps_start
    | |- Frames.keeps _ (Browser.MediaRecorder_stop _ _) => apply keeps_stop
    | |- Frames.keeps _ (Browser.modify _) => apply keeps_modify; by intros []
    | |- Frames.keeps _ (match ?x with _ => _ end) => destruct x
    | |- Frames.keeps _ (if ?x then _ else _) => destruct x
    end.

Section RouterExtras.
Import Browser DeepgramVoice CommandRouter.

Lemma router_create (t : string) :
  handleTranscriptUpdate t = [handleCreateCourseButtonClick] ↔
  Js.occurs_in "create course" (Js.toLowerCase t).
Proof.
  unfold handleTranscriptUpdate. rewrite <- includes_spec.
  destruct (Js.includes (Js.toLowerCase t) "create course"); [done|].
  destruct (Js.includes (Js.toLowerCase t) "join course"); [done|].
  by destruct (Js.includes (Js.toLowerCase t) "submit task").
Qed.

Lemma occurs_in_append (n s x : string) : Js.occurs_in n s → Js.occurs_in n (s +:+ x).
Proof.
  intros (a & b & ->). exists a, (b +:+ x). by rewrite !append_assoc.
Qed.

(** X9. What routes to the create-course handler keeps doing so when text
    is appended: later words, other trigger phrases included, do not
    change the action. *)
Theorem create_course_keeps_firing (t appended : string) :
  handleTranscriptUpdate t = [handleCreateCourseButtonClick] →
  handleTranscriptUpdate (t +:+ appended) = [handleCreateCourseButtonClick].
Proof.
  rewrite !router_create. intros Hw.
  rewrite toLowerCase_append. by apply occurs_in_append.
Qed.

Lemma create_course_keeps_firing_witness :
  handleTranscriptUpdate ("Create course" +:+ " then JOIN COURSE") =
    [handleCreateCourseButtonClick].
Proof.
  apply (create_course_keeps_firing "Create course" " then JOIN COURSE").
  reflexivity.
Defined.

(** X10. The router is case-blind: the phrase "create course" in any
    mixture of cases, anywhere in the text, routes to the create-course
    handler. *)
Theorem trigger_in_any_case (before phrase after : string) :
  Js.toLowerCase phrase = "create course" →
  handleTranscriptUpdate (before +:+ phrase +:+ after) = [handleCreateCourseButtonClick].
Proof.
  intros Hp. apply router_create. rewrite !toLowerCase_append, Hp.
  by exists (Js.toLowerCase before), (Js.toLowerCase after).
Qed.

Lemma trigger_in_any_case_witness :
  handleTranscriptUpdate "Please CREATE Course now" = [handleCreateCourseButtonClick].
Proof.
  apply (trigger_in_any_case "Please " "CREATE Course" " now"). reflexivity.
Defined.

End RouterExtras.

Section LiveExtras.
Import Browser LiveTranscription Transcripts.
Import DeepgramVoice (DeepgramTranscriptData, alternatives, channel, transcript, is_final).

Lemma live_onTranscript_piece (d : DeepgramTranscriptData) (v : world hook) :
  match raw_piece d with
  | Some t =>
      (onTranscript d v).1 = returned () ∧
      bufferRef (hk (onTranscript d v).2) =
        bufferRef (hk v) +:+ (if Js.truthy (bufferRef (hk v)) then " " else "") +:+ t ∧
      transcriptState (hk (onTranscript d v).2) = bufferRef (hk (onTranscript d v).2)
  | None => (onTranscript d v).2 = v
  end.
Proof.
  unfold raw_piece, onTranscript. destruct (alternatives (channel d) !! 0) as [a|]; [|done].
  destruct (Js.truthy (transcript a)); [done|]. by destruct v.
Qed.

Lemma raw_pieces_truthy (ds : list DeepgramTranscriptData) :
  Forall (λ t, Js.truthy t = true) (raw_pieces ds).
Proof.
  induction ds as [|d ds IH]; [constructor|]. unfold raw_pieces. simpl.
  destruct (raw_piece d) as [t|] eqn:Hd; [|done].
  constructor; [|done]. revert Hd. unfold raw_piece.
  destruct (alternatives (channel d) !! 0) as [a|]; [|done].
  destruct (Js.truthy (transcript a)) eqn:Ha; [|done]. by intros [= <-].
Qed.

(** X11. The buffer of [useLiveTranscription] after any sequence of
    Transcript payloads is what it was, followed by the non-empty texts of
    their first alternatives in order, untrimmed and final or not, joined
    by single spaces, and the displayed transcript equals it once a text
    arrived; a payload without alternatives makes the handler throw. *)
Theorem live_transcript_is_joined_raw
    (ds : list DeepgramTranscriptData) (v : world hook) (f : bool) :
  bufferRef (hk (deliver ds v)) =
    String.concat " "
      ((if Js.truthy (bufferRef (hk v)) then [bufferRef (hk v)] else []) ++ raw_pieces ds) ∧
  (raw_pieces ds ≠ [] → transcriptState (hk (deliver ds v)) = bufferRef (hk (deliver ds v))) ∧
  onTranscript {| channel := {| alternatives := [] |}; is_final := f |} v =
    (thrown "TypeError", v).
Proof.
  split; [|split; [|done]].
  - set (pre := if Js.truthy (bufferRef (hk v)) then [bufferRef (hk v)] else []).
    assert (Forall (λ t, Js.truthy t = true) pre) as Hpre.
    { unfold pre. destruct (Js.truthy (bufferRef (hk v))) eqn:Hb; by repeat constructor. }
    induction ds as [|d ds IH] using rev_ind.
    + unfold pre. simpl. rewrite app_nil_r. by destruct (bufferRef (hk v)).
    + unfold deliver in *. rewrite foldl_snoc.
      set (v' := foldl _ v ds) in *.
      unfold raw_pieces in *. rewrite omap_app. simpl.
      pose proof (live_onTranscript_piece d v') as Hd.
      destruct (raw_piece d) as [t|] eqn:Hp; simpl.
      * destruct Hd as (_ & Hb & _). rewrite Hb, IH, app_assoc.
        destruct (pre ++ omap raw_piece ds) as [|x l] eqn:Hl0; [reflexivity|].
        rewrite concat_truthy; [|rewrite <- Hl0|done].
        -- by rewrite concat_snoc.
        -- apply Forall_app. split; [done | apply raw_pieces_truthy].
      * by rewrite app_nil_r, Hd.
  - induction ds as [|d ds IH] using rev_ind; [done|]. intros Hne.
    unfold deliver in *. rewrite foldl_snoc.
    set (v' := foldl _ v ds) in *.
    unfold raw_pieces in *. rewrite omap_app in Hne. simpl in Hne.
    pose proof (live_onTranscript_piece d v') as Hd.
    destruct (raw_piece d) as [t|] eqn:Hp.
    + by destruct Hd as (_ & _ & ->).
    + rewrite Hd. apply IH. by rewrite app_nil_r in Hne.
Qed.

Lemma live_transcript_is_joined_raw_witness :
  transcriptState (hk (deliver [DeepgramVoice.PartialText " hel "; DeepgramVoice.FinalText "lo"]
                         world0)) =
    bufferRef (hk (deliver [DeepgramVoice.PartialText " hel "; DeepgramVoice.FinalText "lo"]
                     world0)).
Proof.
  refine (proj1 (proj2 (live_transcript_is_joined_raw
            [DeepgramVoice.PartialText " hel "; DeepgramVoice.FinalText "lo"]
            world0 true)) _).
  vm_compute. discriminate.
Defined.

(** Every step leaves the buffer or appends to it. *)
Lemma live_step_appends (throws : oracle) (v : world hook) (ev : event) :
  ∃ x, bufferRef (hk (step throws v ev)) = bufferRef (hk v) +:+ x.
Proof.
  destruct ev as [| |p r|p r|k|k d|k size].
  6: { unfold step, handle, when. destruct (listening k (envr v)).
       - apply live_onTranscript_appends.
       - exists "". by rewrite append_nil_r. }
  all: exists ""; rewrite append_nil_r; apply (keeps_sound bufferRef); simpl;
    unfold startListening, stopListening, startListening_token,
      startListening_microphone, onDataAvailable, setIsListening, setErrorState;
    frame.
Qed.

(** X12. Nothing in [useLiveTranscription] ever clears the transcript
    buffer: over any run, stops and restarts and failures included, the
    buffer only gets longer at its end. *)
Theorem live_transcript_survives_restart
    (throws : oracle) (evs : list event) (v : world hook) :
  ∃ x, bufferRef (hk (run throws evs v)) = bufferRef (hk v) +:+ x.
Proof.
  revert v. induction evs as [|ev evs IH]; intros v; simpl.
  - exists "". by rewrite append_nil_r.
  - destruct (IH (step throws v ev)) as [y ->].
    destruct (live_step_appends throws v ev) as [x ->].
    exists (x +:+ y). apply append_assoc.
Qed.

(** X13. Failures of a start of [useLiveTranscription]: without a usable
    token the error is set and nothing is opened; with a refused microphone
    the error is set while the connection opened before it stays open and
    in [deepgramRef], and [isListening] is not touched. *)
Theorem live_failures_leave_connection
    (throws : oracle) (v : world hook) (p : nat) (r : fetch_result) (err : string) :
  (awaits p await_token (envr v) = true → Footprint.token_missing r = true →
     log (envr (step throws v (token_settled p r))) = log (envr v) ∧
     connections (envr (step throws v (token_settled p r))) = connections (envr v) ∧
     error (hk (step throws v (token_settled p r))) = Some "Could not fetch Deepgram token" ∧
     pending (envr (step throws v (token_settled p r))) !! p = None) ∧
  (awaits p await_microphone (envr v) = true →
     log (envr (step throws v (microphone_settled p (microphone_rejected err)))) =
       log (envr v) ∧
     connections (envr (step throws v (microphone_settled p (microphone_rejected err)))) =
       connections (envr v) ∧
     deepgramRef (hk (step throws v (microphone_settled p (microphone_rejected err)))) =
       deepgramRef (hk v) ∧
     error (hk (step throws v (microphone_settled p (microphone_rejected err)))) =
       Some ("Microphone error: " +:+ err) ∧
     isListening (hk (step throws v (microphone_settled p (microphone_rejected err)))) =
       isListening (hk v)).
Proof.
  destruct v as [[l t er c s r0 b] e]. simpl. split.
  - intros Ha Hr. unfold step, handle, when. cbn [envr hk]. rewrite Ha.
    destruct r as [[[|]|]|]; try done; simpl; by rewrite lookup_delete_eq.
  - intros Ha. unfold step, handle, when. cbn [envr hk]. by rewrite Ha.
Qed.

Lemma live_failures_leave_connection_witness :
  deepgramRef
    (hk (step never_throws
           (run never_throws [click_start; token_settled 0 (token_json (Some "tok"))]
              world0)
           (microphone_settled 0 (microphone_rejected "NotAllowedError")))) = Some 0.
Proof.
  refine (proj1 (proj2 (proj2 (proj2 (live_failures_leave_connection never_throws
            (run never_throws [click_start; token_settled 0 (token_json (Some "tok"))]
               world0)
            0 (token_json None) "NotAllowedError") _)))).
  reflexivity.
Defined.

End LiveExtras.

(** ** Hints of the widget *)

Section WidgetExtras.
Import VapiWidget WidgetRuns.

Lemma includes_sub (s a b : string) :
  Js.occurs_in a b → Js.includes s b = true → Js.includes s a = true.
Proof.
  rewrite !includes_spec. intros (x & y & ->) (u & v & ->).
  exists (u +:+ x), (y +:+ v). by rewrite !append_assoc.
Qed.

Ltac not_listed :=
  split; intros Hin;
  repeat (apply elem_of_cons in Hin as [Hin|Hin]; [discriminate Hin|]);
  by apply elem_of_nil in Hin.

Ltac shadowed :=
  match goal with
  | Ht : Js.includes ?s ?b = true, Hf : Js.includes ?s ?a = false |- _ =>
      exfalso; rewrite (includes_sub s a b) in Hf;
      [ discriminate Hf
      | first [ by exists "", " field" | by exists "confirm ", ""
              | by exists "", "ment" | by exists "", " task"
              | by exists "offline ", "" | by exists "file ", "" ]
      | exact Ht ]
  end.

(** X14. Seven phrases of the element map contain a phrase declared
    before them, so the scan never returns them; four locators are bound to
    such phrases only and are never returned either.  Every other phrase of
    the map is returned for some utterance, "click" followed by the phrase
    being one. *)
Theorem shadowed_phrases_never_selected (text : string) (ui : UIElement) :
  (parseForUIElements text = Some ui →
   (elementName ui ∉ shadowed_phrases) ∧ (selector ui ∉ unreachable_selectors)) ∧
  Forall (λ e, e.1 ∈ shadowed_phrases ∨
               parseForUIElements ("click " +:+ e.1) =
                 Some {| elementName := e.1; selector := e.2 |}) UI_ELEMENT_MAP.
Proof.
  split.
  - unfold parseForUIElements. destruct (negb _); [done|].
    unfold UI_ELEMENT_MAP, scan. cbn [Js.toLowerCase Js.lowerChar].
    set (lower := Js.toLowerCase text).
    repeat match goal with
      | |- (if Js.includes lower ?n then _ else _) = _ → _ =>
          destruct (Js.includes lower n) eqn:?;
          [ intros [= <-]; cbn [elementName selector]; first [ shadowed | not_listed ] | ]
      end.
    done.
  - unfold UI_ELEMENT_MAP, shadowed_phrases.
    repeat (apply Forall_cons; split;
            [ first [ right; vm_compute; reflexivity
                    | left; cbn [fst]; repeat first [ by left | right ] ] | ]).
    constructor.
Qed.

Lemma shadowed_phrases_never_selected_witness :
  ("password" ∉ shadowed_phrases) ∧ ("#password-input" ∉ unreachable_selectors).
Proof.
  apply (proj1 (shadowed_phrases_never_selected "click the confirm password field"
                  {| elementName := "password"; selector := "#password-input" |})).
  reflexivity.
Defined.

(** X15. A hint returned by [parseForUIElements] is an entry of the element
    map whose phrase occurs in the lower-cased utterance, and the utterance
    contains an interaction keyword. *)
Theorem hint_is_a_bound_phrase (text : string) (ui : UIElement) :
  parseForUIElements text = Some ui →
  (elementName ui, selector ui) ∈ UI_ELEMENT_MAP ∧
  Js.occurs_in (Js.toLowerCase (elementName ui)) (Js.toLowerCase text) ∧
  Exists (λ k, Js.occurs_in k (Js.toLowerCase text)) INTERACTION_KEYWORDS.
Proof.
  destruct ui as [name sel]. unfold parseForUIElements.
  destruct (existsb _ _) eqn:Hk; [|done]. cbn [negb].
  intros (before & after & Hmap & Hin & _)%scan_Some.
  split; [|split].
  - rewrite Hmap. apply elem_of_app. right. by left.
  - by apply includes_spec.
  - apply existsb_exists in Hk as (k & Hkin & Hk). apply Exists_exists.
    exists k. split; [by apply list_elem_of_In | by apply includes_spec].
Qed.

Lemma hint_is_a_bound_phrase_witness :
  ("submit", "#submit-btn") ∈ UI_ELEMENT_MAP ∧
  Js.occurs_in (Js.toLowerCase "submit")
    (Js.toLowerCase "Press the offline submit button") ∧
  Exists (λ k, Js.occurs_in k (Js.toLowerCase "Press the offline submit button"))
    INTERACTION_KEYWORDS.
Proof.
  apply (hint_is_a_bound_phrase "Press the offline submit button"
           {| elementName := "submit"; selector := "#submit-btn" |}).
  reflexivity.
Defined.

(** A step whose event carries no hint, on a widget without timers and
    without a current highlight whose effect has run once. *)
Lemma quiet_step (w : widget) (ev : event) :
  hint_of ev = None → timers w = [] → currentHighlight w = None → effects w = [None] →
  page (step w ev) = page w ∧ timers (step w ev) = [] ∧
  currentHighlight (step w ev) = None ∧ effects (step w ev) = [None].
Proof.
  intros Hh Ht Hc He.
  assert (page (handle ev w) = page w ∧ timers (handle ev w) = [] ∧
          currentHighlight (handle ev w) = None ∧ effects (handle ev w) = [None]) as Hquiet.
  { destruct ev as [|i| | |mtype role text|err| | |ms|]; simpl; try done.
    - rewrite He. destruct i as [|i]; simpl; [done|]. by destruct i.
    - unfold onMessage. simpl in Hh.
      destruct (bool_decide (mtype = "transcript")); [|done].
      destruct (bool_decide (role = "assistant")); [|done].
      simpl in Hh. by rewrite Hh.
    - destruct (isConnected w); [done|]. unfold startCall. by destruct (vapi w).
    - destruct (isConnected w); [|done]. unfold endCall. rewrite Hc.
      by destruct (vapi w).
    - by rewrite Ht.
    - by rewrite Ht. }
  rewrite step_frame; [done| |].
  - unfold settled. by rewrite He, Hc.
  - destruct Hquiet as (_ & _ & -> & _). by rewrite Hc.
Qed.

(** X16. The widget touches the page only for a hint: over a run whose
    events carry none (user utterances, other message types, assistant
    utterances without a keyword or a known phrase, call events, the two
    buttons, passing time) the page stays as mounted, no timer is
    scheduled, nothing is highlighted and the effect is not run again. *)
Theorem no_hint_no_highlight (evs : list event) (doc : list Element) :
  Forall (λ ev, hint_of ev = None) evs →
  page (run evs (mount doc)) = doc ∧
  timers (run evs (mount doc)) = [] ∧
  currentHighlight (run evs (mount doc)) = None ∧
  effects (run evs (mount doc)) = [None].
Proof.
  intros Hevs.
  assert (∀ w, timers w = [] → currentHighlight w = None → effects w = [None] →
               page (run evs w) = page w ∧ timers (run evs w) = [] ∧
               currentHighlight (run evs w) = None ∧ effects (run evs w) = [None]) as Hrun.
  { induction Hevs as [|ev evs Hev _ IH]; intros w Ht Hc He; [done|]. simpl.
    destruct (quiet_step w ev Hev Ht Hc He) as (Hp & Ht' & Hc' & He').
    destruct (IH (step w ev) Ht' Hc' He') as (-> & -> & -> & ->). by rewrite Hp. }
  by apply Hrun.
Qed.

Lemma no_hint_no_highlight_witness :
  page (run [click_startCall; call_start;
             message "transcript" "user" "click the dashboard";
             message "transcript" "assistant" "welcome back"; click_endCall; call_end 0]
          (mount navigation)) = navigation.
Proof.
  refine (proj1 (no_hint_no_highlight
            [click_startCall; call_start;
             message "transcript" "user" "click the dashboard";
             message "transcript" "assistant" "welcome back"; click_endCall; call_end 0]
            navigation _)).
  repeat constructor.
Defined.

Lemma highlightElement_transcript (sel name : string) (w : widget) :
  transcript (highlightElement sel name w) = transcript w.
Proof. unfold highlightElement. by destruct (querySelector sel (page w)). Qed.

Lemma clearHighlight_transcript (seen : option string) (w : widget) :
  transcript (clearHighlight seen w) = transcript w.
Proof.
  unfold clearHighlight. destruct seen as [sel|]; [|done].
  destruct (Js.truthy sel); [|done]. by destruct (querySelector sel (page w)).
Qed.

Lemma step_transcript (w : widget) (ev : event) :
  transcript (step w ev) = transcript w ++ option_list (spoken ev).
Proof.
  unfold step. destruct (settle_frame (handle ev w)) as (_ & _ & -> & _).
  destruct ev as [|i| | |mtype role text|err| | |ms|]; simpl; rewrite ?app_nil_r; try done.
  - destruct (effects w !! i); [|done]. unfold onCallEnd.
    by rewrite clearHighlight_transcript.
  - unfold onMessage. case_bool_decide; simpl; [|by rewrite app_nil_r].
    case_bool_decide; [|done]. by destruct (parseForUIElements text).
  - destruct (isConnected w); [done|]. unfold startCall. by destruct (vapi w).
  - destruct (isConnected w); [|done]. unfold endCall. destruct (vapi w); [|done].
    simpl. by rewrite clearHighlight_transcript.
  - by destruct (earliest (timers w)).
  - destruct (earliest (timers w)) as [d|]; [|done].
    destruct (d <=? now w)%N; [|done].
    destruct (take_due d (timers w)) as [[t rest]|]; [|done].
    destruct (todo t); simpl; [|done]. by rewrite highlightElement_transcript.
Qed.

(** X17. The transcript shown by the widget is exactly the transcript
    messages received, of either role, in order; nothing else adds to it
    and nothing removes from it, the end of a call included. *)
Theorem transcript_records_messages (evs : list event) (w : widget) :
  transcript (run evs w) = transcript w ++ omap spoken evs.
Proof.
  revert w. induction evs as [|ev evs IH]; intros w; simpl.
  - by rewrite app_nil_r.
  - rewrite IH, step_transcript, <- app_assoc. f_equal.
    by destruct (spoken ev).
Qed.

(** An event whose handler resets [currentHighlight] leaves nothing
    highlighted once the renders are done. *)
Lemma cleared_step (w : widget) (ev : event) :
  coherent w → currentHighlight (handle ev w) = None →
  highlighted (step w ev) = [] ∧ currentHighlight (step w ev) = None.
Proof.
  intros Hco Hc.
  assert (currentHighlight (step w ev) = None) as Hc'
    by (by apply settle_current_None).
  split; [|done]. destruct (step_coherent w ev Hco) as (_ & Hsh & _).
  unfold current_shown in Hsh. by rewrite Hc' in Hsh.
Qed.

Lemma clearHighlight_own (w u : widget) :
  coherent w → currentHighlight u = currentHighlight w →
  currentHighlight (clearHighlight (currentHighlight w) u) = None.
Proof.
  intros (_ & Hsh & _) Hu. rewrite clearHighlight_current, Hu.
  unfold current_shown in Hsh. destruct (currentHighlight w) as [sel|] eqn:Hc; [|done].
  destruct Hsh as (_ & el & Hq & _). simpl. by rewrite (querySelector_truthy _ _ _ Hq).
Qed.

(** X18. Whatever has happened on a page that started without a highlight,
    the End Call button leaves nothing highlighted and no current
    highlight, and so does the [call-end] event of the instance that [vapi]
    holds; the [call-end] event of an instance whose effect saw no current
    highlight changes neither. *)
Theorem endCall_clears_the_highlight (evs : list event) (doc : list Element) (i : nat) :
  querySelectorAll ("." +:+ highlight_class) doc = [] →
  (isConnected (run evs (mount doc)) = true →
     highlighted (step (run evs (mount doc)) click_endCall) = [] ∧
     currentHighlight (step (run evs (mount doc)) click_endCall) = None) ∧
  (vapi (run evs (mount doc)) = Some i →
     highlighted (step (run evs (mount doc)) (call_end i)) = [] ∧
     currentHighlight (step (run evs (mount doc)) (call_end i)) = None) ∧
  (effects (run evs (mount doc)) !! i = Some None →
     highlighted (step (run evs (mount doc)) (call_end i)) =
       highlighted (run evs (mount doc)) ∧
     currentHighlight (step (run evs (mount doc)) (call_end i)) =
       currentHighlight (run evs (mount doc))).
Proof.
  intros Hd. pose proof (run_coherent evs _ (mount_coherent doc Hd)) as Hco.
  set (w := run evs (mount doc)) in *. clearbody w.
  pose proof Hco as (Hs & Hsh & _ & Hne & Hv).
  repeat apply conj.
  - intros Hcon. apply cleared_step; [done|]. simpl. rewrite Hcon. unfold endCall.
    rewrite Hv. simpl. by apply clearHighlight_own.
  - intros Hi. rewrite Hv in Hi. injection Hi as <-.
    assert (effects w !! (length (effects w) - 1) = Some (currentHighlight w)) as Hl.
    { rewrite Nat.sub_1_r, <- last_lookup. exact Hs. }
    apply cleared_step; [done|]. simpl. rewrite Hl. unfold onCallEnd.
    by apply clearHighlight_own.
  - intros Hi. rewrite step_frame; [|done|]; simpl; by rewrite Hi.
Qed.

Lemma endCall_clears_the_highlight_witness :
  highlighted (step (run guided_call (mount navigation)) click_endCall) = [] ∧
  highlighted (step (run guided_call (mount navigation)) (call_end 1)) = [] ∧
  highlighted (step (run guided_call (mount navigation)) (call_end 0)) =
    highlighted (run guided_call (mount navigation)).
Proof.
  destruct (endCall_clears_the_highlight guided_call navigation 1 eq_refl)
    as (Hclick & Hlatest & _).
  destruct (endCall_clears_the_highlight guided_call navigation 0 eq_refl)
    as (_ & _ & Hstale).
  repeat apply conj.
  - apply Hclick. reflexivity.
  - apply Hlatest. reflexivity.
  - apply Hstale. reflexivity.
Defined.

(** X25. Applying a highlight costs the call: in a widget with no pending
    timer and no current highlight, when the hint of an utterance finds its
    element, the effect is cleaned up and run again, so the instance that
    [vapi] held is stopped and a new one, on which no call has been
    started, takes its place. *)
Theorem highlight_replaces_the_instance
    (text : string) (ui : UIElement) (w : widget) (el i : nat) :
  quiet w → vapi w = Some i → parseForUIElements text = Some ui →
  querySelector (selector ui) (page w) = Some el →
  vapi_calls (run [message "transcript" "assistant" text; elapse 500; timer_fires] w) =
    vapi_calls w ++ [vapi_stop i; vapi_new (S i)] ∧
  vapi (run [message "transcript" "assistant" text; elapse 500; timer_fires] w) =
    Some (S i) ∧
  effects (run [message "transcript" "assistant" text; elapse 500; timer_fires] w) =
    effects w ++ [Some (selector ui)].
Proof.
  intros Hw Hi Hp Hq.
  destruct (hint_is_shown text ui w el Hw Hp Hq)
    as (shown & -> & _ & _ & _ & _ & _ & _ & He & Hv & Hc).
  destruct Hw as ((_ & _ & _ & Hne & Hvw) & _). rewrite Hvw in Hi. injection Hi as <-.
  assert (length (effects w) = S (length (effects w) - 1)) as Hlen.
  { destruct (effects w); [done|]. simpl. lia. }
  rewrite <- Hlen. done.
Qed.

Lemma highlight_replaces_the_instance_witness :
  vapi_calls (run [message "transcript" "assistant" "Click the Dashboard";
                   elapse 500; timer_fires]
                (run [click_startCall; call_start] (mount navigation))) =
    [vapi_new 0; vapi_start 0; vapi_stop 0; vapi_new 1].
Proof.
  refine (proj1 (highlight_replaces_the_instance "Click the Dashboard"
            {| elementName := "dashboard"; selector := "#dashboard-link" |}
            (run [click_startCall; call_start] (mount navigation)) 0 0 _ _ _ _)).
  - split; [|split; reflexivity].
    by apply (run_coherent [click_startCall; call_start]), mount_coherent.
  - reflexivity.
  - by vm_compute.
  - reflexivity.
Defined.

End WidgetExtras.

(** ** The transcriber component and the token route *)

Section TranscriberExtras.
Import Browser Transcriber TranscriberRuns.
Import DeepgramVoice (DeepgramTranscriptData, alternatives, channel, transcript, is_final).
Context (throws : oracle) (pr : props).

Lemma cleanup_spec (w : world hook) :
  ∃ e,
    cleanup throws w =
      (returned (),
       World (Hook None (mediaRecorderRef (hk w)) None false false (error (hk w))
                   (unmounted (hk w))) e) ∧
    log e = log (envr w) ++ releases w ∧
    pending e = pending (envr w) ∧
    connections e = connections (envr w) ∧
    invocations e = invocations (envr w) ∧
    (∀ k, is_Some (recorders e !! k) ↔ is_Some (recorders (envr w) !! k)) ∧
    (∀ k, recorders e !! k = Some recording → recorders (envr w) !! k = Some recording).
Proof.
  destruct w as [[[c|] [r|] [s|] l i er u] e]; unfold releases, recorder_release;
    unfold cleanup, MediaRecorder_stop, ext, tryCatch, note, setIsListening, setIsConnected,
      gets, gets_env, modify, modify_env, mbind, M_bind, bind, mret, M_ret, ret; simpl;
    try (destruct (recorders e !! r) as [[]|] eqn:Hr; simpl);
    repeat (first [ rewrite Hr
                  | match goal with
                    | |- context [throws ?l ?x] => destruct (throws l x)
                    end ]; simpl);
    eexists; (split; [reflexivity|]); simpl;
    (split; [by rewrite <- ?app_assoc, ?app_nil_r|]);
    repeat (split; [done|]);
    try done;
    split; intros k; destruct (decide (k = r)) as [->|Hne];
      rewrite ?lookup_insert_eq, ?lookup_insert_ne, ?Hr by done; try done;
      rewrite ?Hr; try done.
Qed.

Lemma releases_release (w : world hook) :
  Forall (λ c, is_release c = true) (releases w).
Proof.
  unfold releases, recorder_release.
  destruct (mediaRecorderRef (hk w)) as [k|], (mediaStreamRef (hk w)),
    (connectionRef (hk w)); try destruct (recorders (envr w) !! k) as [[]|];
    by repeat constructor.
Qed.

Lemma if_mounted_off (p : nat) (m : M hook unit) (w : world hook) :
  p ∈ unmounted (hk w) → if_mounted p m w = (returned (), w).
Proof. intros Hp. unfold if_mounted. by rewrite bool_decide_eq_true_2. Qed.

Ltac same_log := split; [done | by exists []; rewrite app_nil_r].

(** Once every session is unmounted, a step other than a mount only gives
    resources back. *)
Lemma unmounted_step (w : world hook) (ev : event) :
  all_unmounted w → is_mount ev = false →
  all_unmounted (step throws pr w ev) ∧
  ∃ added, log (envr (step throws pr w ev)) = log (envr w) ++ added ∧
           Forall (λ c, is_release c = true) added.
Proof.
  intros Hall Hev. unfold step.
  destruct ev as [|p|p r|k|k|k msg|k d|k size|k]; [done|..]; simpl; unfold when.
  - destruct (has_run p (envr w)); [|same_log].
    unfold effect_cleanup, mbind, M_bind, bind, modify. simpl.
    set (w1 := World (clear_mounted p (hk w)) (envr w)).
    destruct (cleanup_spec w1) as (e & -> & Hlog & Hp & Hc & _ & Hr & _). simpl.
    split.
    + intros q Hq. simpl in *. rewrite Hp, Hc, Hr in Hq. apply elem_of_union. right.
      by apply Hall.
    + exists (releases w1). split; [done | apply releases_release].
  - destruct (awaits p await_microphone (envr w)) eqn:Ha; [|same_log].
    assert (p ∈ unmounted (hk w)) as Hp.
    { apply Hall. left. unfold awaits in Ha.
      destruct (pending (envr w) !! p); [by eexists | done]. }
    assert (∀ x : world hook, hk x = hk w → pending (envr x) = delete p (pending (envr w)) →
              connections (envr x) = connections (envr w) →
              recorders (envr x) = recorders (envr w) → all_unmounted x) as Hkeep.
    { intros x Hh Hpe Hc Hr q Hq. rewrite Hh, Hpe, Hc, Hr in *. apply Hall.
      destruct Hq as [[y Hy]|Hq]; [left|by right].
      apply lookup_delete_Some in Hy as [_ Hy]. by eexists. }
    unfold startTranscription, tryCatchWith, mbind, M_bind, bind, modify_env. simpl.
    destruct r as [|err]; simpl.
    + rewrite (bool_decide_eq_true_2 _ Hp). unfold note, modify_env. simpl. split.
      * by apply Hkeep.
      * exists [track_stop p]. split; [done | by repeat constructor].
    + unfold on_init_error. rewrite if_mounted_off by done. simpl. split.
      * by apply Hkeep.
      * by exists []; rewrite app_nil_r.
  - destruct (listening k (envr w)) eqn:Hk; [|same_log].
    unfold onOpen. rewrite if_mounted_off; [same_log|].
    apply Hall. right. left. by apply bool_decide_eq_true_1 in Hk.
  - destruct (listening k (envr w)) eqn:Hk; [|same_log].
    unfold onClose. rewrite if_mounted_off; [same_log|].
    apply Hall. right. left. by apply bool_decide_eq_true_1 in Hk.
  - destruct (listening k (envr w)) eqn:Hk; [|same_log].
    unfold onConnectionError. rewrite if_mounted_off; [same_log|].
    apply Hall. right. left. by apply bool_decide_eq_true_1 in Hk.
  - destruct (listening k (envr w)) eqn:Hk; [|same_log].
    unfold onTranscript. rewrite if_mounted_off; [same_log|].
    apply Hall. right. left. by apply bool_decide_eq_true_1 in Hk.
  - destruct (recorder_emits k (envr w)) eqn:Hk; [|same_log].
    unfold onDataAvailable. destruct (0 <? size); [|same_log].
    rewrite if_mounted_off; [same_log|].
    apply Hall. right. right. unfold recorder_emits in Hk.
    destruct (recorders (envr w) !! k); [by eexists | done].
  - destruct (recorder_exists k (envr w)) eqn:Hk; [|same_log].
    unfold onRecorderError. rewrite if_mounted_off; [same_log|].
    apply Hall. right. right. unfold recorder_exists in Hk.
    destruct (recorders (envr w) !! k); [by eexists | done].
Qed.

(** X19. Once the effect runs of [DeepgramTranscriber] have been cleaned up,
    whatever arrives late (the microphone, events of the connection or of
    the recorder, a repeated cleanup) makes the component do nothing but
    give resources back: no callback of the parent, no chunk sent, no
    connection opened, no recorder created. *)
Theorem nothing_but_release_after_unmount (evs : list event) (w : world hook) :
  all_unmounted w → Forall (λ ev, is_mount ev = false) evs →
  all_unmounted (run throws pr evs w) ∧
  ∃ added, log (envr (run throws pr evs w)) = log (envr w) ++ added ∧
           Forall (λ c, is_release c = true) added.
Proof.
  intros Hall Hevs. revert w Hall.
  induction Hevs as [|ev evs Hev _ IH]; intros w Hall; simpl.
  - split; [done | by exists []; rewrite app_nil_r].
  - destruct (unmounted_step w ev Hall Hev) as (Hall' & a1 & Hl1 & Ha1).
    destruct (IH _ Hall') as (Hall'' & a2 & Hl2 & Ha2).
    split; [done|]. exists (a1 ++ a2). split.
    + by rewrite Hl2, Hl1, app_assoc.
    + by apply Forall_app.
Qed.

(** X20. A microphone stream granted after the effect was cleaned up is
    stopped at once and stored nowhere: no connection is opened and no
    recorder created for it. *)
Theorem late_stream_is_stopped (p : nat) (w : world hook) :
  awaits p await_microphone (envr w) = true → p ∈ unmounted (hk w) →
  log (envr (step throws pr w (microphone_settled p stream_granted))) =
    log (envr w) ++ [track_stop p] ∧
  hk (step throws pr w (microphone_settled p stream_granted)) = hk w ∧
  connections (envr (step throws pr w (microphone_settled p stream_granted))) =
    connections (envr w) ∧
  recorders (envr (step throws pr w (microphone_settled p stream_granted))) =
    recorders (envr w).
Proof.
  intros Ha Hp. unfold step, handle, when. rewrite Ha.
  unfold startTranscription, tryCatchWith, mbind, M_bind, bind, modify_env. simpl.
  by rewrite (bool_decide_eq_true_2 _ Hp).
Qed.

(** X21. [cleanup] of the transcriber always returns, whatever the recorder
    or the connection throws: it stops the recorder if it records, stops
    the stream and finishes the connection if the refs hold them, clears
    those two refs and both flags, and keeps [mediaRecorderRef]; a second
    cleanup can only try the recorder again. *)
Theorem transcriber_cleanup_releases (w : world hook) :
  (cleanup throws w).1 = returned () ∧
  hk (cleanup throws w).2 =
    Hook None (mediaRecorderRef (hk w)) None false false (error (hk w)) (unmounted (hk w)) ∧
  log (envr (cleanup throws w).2) = log (envr w) ++ releases w ∧
  log (envr (cleanup throws (cleanup throws w).2).2) =
    log (envr (cleanup throws w).2) ++ recorder_release (cleanup throws w).2.
Proof.
  destruct (cleanup_spec w) as (e & Hc & Hlog & _).
  destruct (cleanup_spec (cleanup throws w).2) as (e' & Hc' & Hlog' & _).
  rewrite Hc'. rewrite Hc in *. simpl in *. repeat split; [done|].
  rewrite Hlog'. unfold releases. simpl. by rewrite app_nil_r.
Qed.

Lemma onTranscript_passed (p : nat) (d : DeepgramTranscriptData) (w : world hook) :
  onTranscript pr p d w =
    (returned (),
     match passed d with
     | Some t =>
         if bool_decide (p ∈ unmounted (hk w)) then w
         else if has_onTranscript pr
              then World (hk w) (push_log (onTranscriptUpdate t) (envr w)) else w
     | None => w
     end).
Proof.
  unfold onTranscript, if_mounted, passed, call_if.
  destruct (alternatives (channel d) !! 0) as [a|]; simpl.
  - destruct (Js.truthy (transcript a)) eqn:Ht; simpl.
    + destruct (Js.truthy (Js.trim (transcript a))), (is_final d),
        (bool_decide (p ∈ unmounted (hk w))), (has_onTranscript pr); simpl;
        try done; by destruct w.
    + destruct (transcript a); [|done]. simpl.
      by destruct (bool_decide (p ∈ unmounted (hk w))).
  - by destruct (bool_decide (p ∈ unmounted (hk w))).
Qed.

(** X22. While mounted, the transcriber passes its parent exactly the final
    results whose text is not blank, each as received (untrimmed, not
    accumulated), in order; interim and blank results and payloads without
    alternatives are dropped without an error, and the state is left
    alone. *)
Theorem consumer_gets_final_results
    (p : nat) (ds : list DeepgramTranscriptData) (w : world hook) :
  has_onTranscript pr = true → p ∈ connections (envr w) → p ∉ unmounted (hk w) →
  log (envr (run throws pr (Transcript p <$> ds) w)) =
    log (envr w) ++ (onTranscriptUpdate <$> omap passed ds) ∧
  hk (run throws pr (Transcript p <$> ds) w) = hk w.
Proof.
  intros Hgiven. revert w. induction ds as [|d ds IH]; intros w Hp Hm; simpl.
  - by rewrite app_nil_r.
  - assert (step throws pr w (Transcript p d) =
            match passed d with
            | Some t => World (hk w) (push_log (onTranscriptUpdate t) (envr w))
            | None => w
            end) as Hstep.
    { unfold step, handle, when, listening. rewrite (bool_decide_eq_true_2 _ Hp).
      rewrite onTranscript_passed, (bool_decide_eq_false_2 _ Hm), Hgiven. simpl.
      by destruct (passed d). }
    rewrite Hstep. destruct (passed d) as [t|]; simpl.
    + destruct (IH (World (hk w) (push_log (onTranscriptUpdate t) (envr w))) Hp Hm)
        as [Hl Hh].
      split; [etransitivity; [exact Hl|] | etransitivity; [exact Hh|]]; simpl;
        by rewrite <- ?app_assoc.
    + by apply IH.
Qed.

End TranscriberExtras.

Section TranscriberRunsOf.
Import Browser Transcriber TranscriberRuns.

Lemma nothing_but_release_after_unmount_witness :
  ∃ added,
    log (envr (run never_throws {| has_onTranscript := true; has_onError := true |}
                 [microphone_settled 0 stream_granted; Open 0;
                  Transcript 0 (DeepgramVoice.FinalText "hello"); dataavailable 0 10]
                 (run never_throws {| has_onTranscript := true; has_onError := true |}
                    [mount; unmount 0] world0))) =
      [getUserMedia 0] ++ added ∧
    Forall (λ c, is_release c = true) added.
Proof.
  refine (proj2 (nothing_but_release_after_unmount never_throws
            {| has_onTranscript := true; has_onError := true |}
            [microphone_settled 0 stream_granted; Open 0;
             Transcript 0 (DeepgramVoice.FinalText "hello"); dataavailable 0 10]
            (run never_throws {| has_onTranscript := true; has_onError := true |}
               [mount; unmount 0] world0) _ _)).
  - change (run never_throws {| has_onTranscript := true; has_onError := true |}
              [mount; unmount 0] world0)
      with (World (Hook None None None false false None {[0]})
              (Env ∅ ∅ {[0 := await_microphone]} 1 [getUserMedia 0])).
    intros q [[x Hx]|[Hq|[x Hx]]]; simpl in *.
    + apply lookup_singleton_Some in Hx as [<- _]. by apply elem_of_singleton.
    + by apply elem_of_empty in Hq.
    + by rewrite lookup_empty in Hx.
  - repeat constructor.
Defined.

Lemma late_stream_is_stopped_witness :
  log (envr (step never_throws {| has_onTranscript := true; has_onError := true |}
               (run never_throws {| has_onTranscript := true; has_onError := true |}
                  [mount; unmount 0] world0)
               (microphone_settled 0 stream_granted))) =
    [getUserMedia 0; track_stop 0].
Proof.
  refine (proj1 (late_stream_is_stopped never_throws
            {| has_onTranscript := true; has_onError := true |} 0
            (run never_throws {| has_onTranscript := true; has_onError := true |}
               [mount; unmount 0] world0) _ _)).
  - reflexivity.
  - vm_compute. reflexivity.
Defined.

Lemma consumer_gets_final_results_witness :
  log (envr (run never_throws {| has_onTranscript := true; has_onError := false |}
               (Transcript 0 <$>
                  [DeepgramVoice.FinalText " hello "; DeepgramVoice.PartialText "wor";
                   DeepgramVoice.FinalText "   "; DeepgramVoice.FinalText "world"])
               (run never_throws {| has_onTranscript := true; has_onError := false |}
                  [mount; microphone_settled 0 stream_granted; Open 0] world0))) =
    [getUserMedia 0; listen_live 0; new_MediaRecorder 0; recorder_start 0 100;
     onTranscriptUpdate " hello "; onTranscriptUpdate "world"].
Proof.
  refine (proj1 (consumer_gets_final_results never_throws
            {| has_onTranscript := true; has_onError := false |} 0
            [DeepgramVoice.FinalText " hello "; DeepgramVoice.PartialText "wor";
             DeepgramVoice.FinalText "   "; DeepgramVoice.FinalText "world"]
            (run never_throws {| has_onTranscript := true; has_onError := false |}
               [mount; microphone_settled 0 stream_granted; Open 0] world0) _ _ _)).
  - reflexivity.
  - vm_compute. reflexivity.
  - vm_compute. discriminate.
Defined.

End TranscriberRunsOf.

Section RouteExtras.
Import Browser TokenRoute.

(** X23. The token route answers with a token exactly when the API key is
    set and not empty and the grant succeeded, and then with status 200;
    every other answer has status 500 and an error message, and no token. *)
Theorem token_route_answers (apiKey : option string) (g : grant) :
  (∀ t, token (GET apiKey g) = Some t ↔ Js.truthy_opt apiKey = true ∧ g = granted t) ∧
  (status (GET apiKey g) = 200 ↔ is_Some (token (GET apiKey g))) ∧
  (token (GET apiKey g) = None →
     status (GET apiKey g) = 500 ∧ is_Some (error (GET apiKey g))).
Proof.
  unfold GET. destruct (Js.truthy_opt apiKey); simpl.
  - destruct g; simpl; repeat apply conj; try done; try (by intros [? ?]);
      try (by intros _; split; eauto); try (by intros _; eauto);
      intros t'; split; try done; try (by intros [= ->]);
      try (by intros [_ [= ->]]); by intros [_ [=]].
  - repeat apply conj; try done; try (by intros [? ?]);
      try (by intros _; split; eauto).
    intros t; split; [done | by intros [[=] _]].
Qed.

Lemma token_route_answers_witness :
  status (GET (Some "") (granted "tok")) = 500 ∧
  is_Some (error (GET (Some "") (granted "tok"))).
Proof.
  refine (proj2 (proj2 (token_route_answers (Some "") (granted "tok"))) _).
  reflexivity.
Defined.

(** X24. The route and the hook together: [startVoice] goes on to the
    microphone exactly when the route answered with a non-empty token;
    every error answer of the route reaches the consumer as
    "No Deepgram token", whatever the route's own message, and leaves the
    hook inactive. *)
Theorem route_decides_start
    (throws : oracle) (apiKey : option string) (g : grant)
    (w : world DeepgramVoice.hook) (p : nat) :
  awaits p await_token (envr w) = true →
  log (envr (DeepgramVoice.step throws w
               (DeepgramVoice.token_settled p (body (GET apiKey g))))) =
    log (envr w) ++
    [ match token (GET apiKey g) with
      | Some (String _ _) => getUserMedia p
      | _ => onError "Could not fetch Deepgram token: Error: No Deepgram token"
      end ] ∧
  (is_Some (error (GET apiKey g)) →
     DeepgramVoice.isVoiceActive
       (hk (DeepgramVoice.step throws w
              (DeepgramVoice.token_settled p (body (GET apiKey g))))) = false).
Proof.
  intros Ha. destruct w as [[c0 r0 b a l] e]. simpl in *.
  unfold DeepgramVoice.step, DeepgramVoice.handle, when. cbn [envr hk]. rewrite Ha.
  unfold body, GET. destruct (Js.truthy_opt apiKey); simpl.
  - destruct g as [[|]| |]; simpl; split; try done; by intros [? ?].
  - done.
Qed.

Lemma route_decides_start_witness :
  log (envr (DeepgramVoice.step never_throws
               (DeepgramVoice.run never_throws [DeepgramVoice.click_start]
                  DeepgramVoice.world0)
               (DeepgramVoice.token_settled 0 (body (GET (Some "key") (refused "quota")))))) =
    [fetch_token 0; onError "Could not fetch Deepgram token: Error: No Deepgram token"].
Proof.
  refine (proj1 (route_decides_start never_throws (Some "key") (refused "quota")
                   (DeepgramVoice.run never_throws [DeepgramVoice.click_start]
                      DeepgramVoice.world0) 0 _)).
  reflexivity.
Defined.

End RouteExtras.
